(** * csv_parser.py: the streaming CSV reader and writer

    A shallow embedding of [CustomCsvReader] and [CustomCsvWriter].

    - Python strings are [string].  A character is a string of length one,
      as in Python, so the delimiter and the quote character are strings;
      the code only ever compares characters for equality.
    - An object is a record and a method takes [self] and returns the new
      [self]; the local variables of [__next__] are the record [locals].
    - [raise] and [return] are the two constructors of [completion].
    - The reader's [while True] is [loop_body], one pass, iterated by
      [while_true] with fuel; [while_true_total] shows that the fuel
      [__next__] gives it is always enough.
    - The file objects, which the module only uses through [read(4096)] and
      [write(line)], are modelled in [TextIO]. *)

From Stdlib Require Import String Ascii List Bool Arith Lia.
Import ListNotations.
Local Open Scope string_scope.

(** ** The operations on [str] the module uses *)
Module Py.

Definition LF : ascii := "010"%char.
Definition CR : ascii := "013"%char.
Definition DQ : ascii := "034"%char.

(** The one-character strings LF, CR and double quote. *)
Definition nl : string := String LF "".
Definition cr : string := String CR "".
Definition dquote : string := String DQ "".

(** Truth value of a string: [if s] / [if not s]. *)
Definition truthy (s : string) : bool :=
  match s with
  | "" => false
  | String _ _ => true
  end.

(** [s[0]]; [None] stands for the IndexError on an empty string. *)
Definition getitem0 (s : string) : option string :=
  match s with
  | "" => None
  | String c _ => Some (String c "")
  end.

(** [s[1:]] *)
Definition slice1 (s : string) : string :=
  match s with
  | "" => ""
  | String _ t => t
  end.

(** [s[:n]] *)
Fixpoint take (n : nat) (s : string) {struct s} : string :=
  match s with
  | "" => ""
  | String c t =>
      match n with
      | O => ""
      | S k => String c (take k t)
      end
  end.

(** [s[n:]] *)
Fixpoint drop (n : nat) (s : string) {struct s} : string :=
  match s with
  | "" => ""
  | String _ t =>
      match n with
      | O => s
      | S k => drop k t
      end
  end.

(** [sub in s]: [sub] occurs in [s] as a substring. *)
Fixpoint contains (sub s : string) : bool :=
  prefix sub s ||
  match s with
  | "" => false
  | String _ t => contains sub t
  end.

(** [s.replace(old, new)] for the empty [old]: [new] goes before every
    character and at the end. *)
Fixpoint replace_empty (new s : string) : string :=
  match s with
  | "" => new
  | String c t => new ++ String c (replace_empty new t)
  end.

(** [s.replace(old, new)] for a non-empty [old]: the occurrences are
    taken from the left and do not overlap; [skip] counts the characters
    of the occurrence just replaced that are still to be passed over. *)
Fixpoint replace_from (old new s : string) (skip : nat) : string :=
  match s with
  | "" => ""
  | String c t =>
      match skip with
      | S k => replace_from old new t k
      | O =>
          if prefix old s
          then new ++ replace_from old new t (String.length old - 1)
          else String c (replace_from old new t 0)
      end
  end.

Definition replace (old new s : string) : string :=
  match old with
  | "" => replace_empty new s
  | String _ _ => replace_from old new s 0
  end.

(** [sep.join(l)] *)
Fixpoint join (sep : string) (l : list string) : string :=
  match l with
  | [] => ""
  | [x] => x
  | x :: (_ :: _) as xs => x ++ sep ++ join sep xs
  end.

Inductive exn : Type :=
| StopIteration
| IndexError.

(** How a call ends: with a value or with an exception. *)
Inductive completion (A : Type) : Type :=
| Return (a : A)
| Raise (e : exn).

Arguments Return {A} a.
Arguments Raise {A} e.

End Py.

(** ** Text-mode file objects *)
Module TextIO.
Import Py.

(** A readable stream is the list of pieces its source still has to hand
    over: a file or a [StringIO] has one piece, its whole text, and a pipe or
    a socket has one piece per delivery.  [read f n] returns at most [n]
    characters of the first piece and what is left of the stream, so that
    the text of a [StringIO] is cut every [n] characters; the empty string
    is the end-of-file answer. *)
Definition readable : Type := list string.

Definition StringIO (text : string) : readable := [text].

Definition read (f : readable) (n : nat) : string * readable :=
  match f with
  | [] => ("", [])
  | piece :: rest =>
      if (String.length piece <=? n)%nat then (piece, rest)
      else (take n piece, drop n piece :: rest)
  end.

(** A writable stream is the text written so far. *)
Definition writable : Type := string.

Definition write (f : writable) (s : string) : writable := f ++ s.

Definition getvalue (f : writable) : string := f.

End TextIO.

(** ** class CustomCsvReader *)
Module CustomCsvReader.
Import Py.

Record t : Type := mk {
  fileobj : TextIO.readable;
  delimiter : string;
  quotechar : string;
  buffer : string;
  eof : bool
}.

Definition __init__ (fileobj : TextIO.readable) (delimiter quotechar : string) : t :=
  {| fileobj := fileobj; delimiter := delimiter; quotechar := quotechar;
     buffer := ""; eof := false |}.

(** The constructor with its default arguments: comma and double quote. *)
Definition new (fileobj : TextIO.readable) : t := __init__ fileobj "," dquote.

Definition set_fileobj (self : t) (f : TextIO.readable) : t :=
  {| fileobj := f; delimiter := delimiter self; quotechar := quotechar self;
     buffer := buffer self; eof := eof self |}.

Definition set_buffer (self : t) (b : string) : t :=
  {| fileobj := fileobj self; delimiter := delimiter self; quotechar := quotechar self;
     buffer := b; eof := eof self |}.

Definition set_eof (self : t) (e : bool) : t :=
  {| fileobj := fileobj self; delimiter := delimiter self; quotechar := quotechar self;
     buffer := buffer self; eof := e |}.

(** The local variables of [__next__]. *)
Record locals : Type := mkLocals {
  row : list string;
  current_field : string;
  in_quotes : bool
}.

Definition fresh : locals := {| row := []; current_field := ""; in_quotes := false |}.

(** [b and b[0] == s] *)
Definition first_is (b s : string) : bool :=
  truthy b &&
  match getitem0 b with
  | Some c => c =? s
  | None => false
  end.

(** The block [if not self.buffer:] at the head of the loop.  Either the
    buffer is filled with the chunk just read and the pass goes on ([inl]),
    or the chunk is empty and the call ends ([inr]): [self.eof] is set, the
    field in progress is appended, and the row is returned if it has a
    field, StopIteration raised if not. *)
Definition fill (self : t) (fr : locals) : t + t * completion (list string) :=
  if negb (truthy (buffer self)) then
    let (chunk, f) := TextIO.read (fileobj self) 4096 in
    let self := set_fileobj self f in
    if negb (truthy chunk) then
      let self := set_eof self true in
      let row :=
        if truthy (current_field fr) || in_quotes fr
        then (row fr ++ [current_field fr])%list
        else row fr in
      match row with
      | _ :: _ => inr (self, Return row)
      | [] => inr (self, Raise StopIteration)
      end
    else inl (set_buffer self chunk)
  else inl self.

(** One pass through the body of [while True]: the buffer is filled if it
    is empty, [char = self.buffer[0]] is taken off it and the chain
    [if char == self.quotechar / elif ... delimiter / elif ... newline / else]
    is followed in the order of the source.  [inl] is the state at the end
    of the pass, [inr] a [return row] or a [raise]. *)
Definition loop_body (self : t) (fr : locals)
  : t * locals + t * completion (list string) :=
  match fill self fr with
  | inr ended => inr ended
  | inl self =>
      match getitem0 (buffer self) with
      | None => inr (self, Raise IndexError)
      | Some char =>
          let self := set_buffer self (slice1 (buffer self)) in
          if char =? quotechar self then
            if in_quotes fr then
              if first_is (buffer self) (quotechar self) then
                inl (set_buffer self (slice1 (buffer self)),
                     {| row := row fr;
                        current_field := current_field fr ++ quotechar self;
                        in_quotes := in_quotes fr |})
              else
                inl (self, {| row := row fr; current_field := current_field fr;
                              in_quotes := false |})
            else
              inl (self, {| row := row fr; current_field := current_field fr;
                            in_quotes := true |})
          else if (char =? delimiter self) && negb (in_quotes fr) then
            inl (self, {| row := (row fr ++ [current_field fr])%list; current_field := "";
                          in_quotes := in_quotes fr |})
          else if ((char =? nl) || (char =? cr)) && negb (in_quotes fr) then
            let row := (row fr ++ [current_field fr])%list in
            let self :=
              if (char =? cr) && first_is (buffer self) nl
              then set_buffer self (slice1 (buffer self))
              else self in
            inr (self, Return row)
          else
            inl (self, {| row := row fr; current_field := current_field fr ++ char;
                          in_quotes := in_quotes fr |})
      end
  end.

(** [while True]: [None] only when the fuel runs out. *)
Fixpoint while_true (fuel : nat) (self : t) (fr : locals)
  : option (t * completion (list string)) :=
  match fuel with
  | O => None
  | S n =>
      match loop_body self fr with
      | inl (self', fr') => while_true n self' fr'
      | inr ended => Some ended
      end
  end.

(** The characters not yet consumed, buffered or still in the stream: every
    pass that does not end the call consumes one at least. *)
Definition pending (self : t) : nat :=
  String.length (buffer self) + list_sum (map String.length (fileobj self)).

(** [__next__]: the entry check [if self.eof and not self.buffer], then the
    loop on fresh local variables. *)
Definition __next__ (self : t) : option (t * completion (list string)) :=
  if eof self && negb (truthy (buffer self)) then Some (self, Raise StopIteration)
  else while_true (S (pending self)) self fresh.

(** [list(self)], the body of [read]: [__next__] is called until it raises
    StopIteration; any other exception goes through. *)
Fixpoint collect (fuel : nat) (self : t) (rows : list (list string))
  : option (t * completion (list (list string))) :=
  match fuel with
  | O => None
  | S n =>
      match __next__ self with
      | None => None
      | Some (self', Return r) => collect n self' (rows ++ [r])%list
      | Some (self', Raise StopIteration) => Some (self', Return rows)
      | Some (self', Raise e) => Some (self', Raise e)
      end
  end.

Definition read (self : t) : option (t * completion (list (list string))) :=
  collect (S (S (pending self))) self [].

End CustomCsvReader.

(** ** class CustomCsvWriter *)
Module CustomCsvWriter.
Import Py.

Record t : Type := mk {
  fileobj : TextIO.writable;
  delimiter : string;
  quotechar : string
}.

Definition __init__ (fileobj : TextIO.writable) (delimiter quotechar : string) : t :=
  {| fileobj := fileobj; delimiter := delimiter; quotechar := quotechar |}.

(** The constructor with its default arguments. *)
Definition new (fileobj : TextIO.writable) : t := __init__ fileobj "," dquote.

Definition _needs_quoting (self : t) (field : string) : bool :=
  contains (delimiter self) field ||
  contains (quotechar self) field ||
  contains nl field ||
  contains cr field.

Definition _escape_field (self : t) (field : string) : string :=
  if _needs_quoting self field then
    let escaped := replace (quotechar self) (quotechar self ++ quotechar self) field in
    quotechar self ++ escaped ++ quotechar self
  else field.

Section Rows.
(** [str(field)] on the values the caller puts in a row. *)
Context {A : Type} (str : A -> string).

Definition writerow (self : t) (row : list A) : t :=
  let escaped_fields := map (fun field => _escape_field self (str field)) row in
  let line := join (delimiter self) escaped_fields ++ nl in
  {| fileobj := TextIO.write (fileobj self) line;
     delimiter := delimiter self; quotechar := quotechar self |}.

Definition writerows (self : t) (rows : list (list A)) : t :=
  fold_left writerow rows self.
End Rows.

End CustomCsvWriter.

Import Py.
Module R := CustomCsvReader.
Module W := CustomCsvWriter.

(** ** Inputs, runs of the loop, and the specification's writer *)

(** All the rows of a stream, read with the default configuration. *)
Definition parse_pieces (pieces : list string) : option (completion (list (list string))) :=
  option_map snd (R.read (R.new pieces)).

Definition parse (text : string) : option (completion (list (list string))) :=
  parse_pieces (TextIO.StringIO text).

(** [s * n] *)
Fixpoint times (s : string) (n : nat) : string :=
  match n with
  | O => ""
  | S k => s ++ times s k
  end.

(** The whole text of a stream. *)
Definition text_of (pieces : list string) : string := fold_right append "" pieces.

(** The loop reaches [res] from [(self, fr)] with some amount of fuel. *)
Definition runs_to (self : R.t) (fr : R.locals)
           (res : R.t * completion (list string)) : Prop :=
  exists n, R.while_true n self fr = Some res.

(** The loop gets from one state to another by passes that do not end the call. *)
Inductive reaches : R.t -> R.locals -> R.t -> R.locals -> Prop :=
| reaches_here self fr : reaches self fr self fr
| reaches_pass self fr self1 fr1 self2 fr2 :
    R.loop_body self fr = inl (self1, fr1) ->
    reaches self1 fr1 self2 fr2 ->
    reaches self fr self2 fr2.

(** What the specification says a written row is, character by character,
    for a one-character delimiter [d] and quote character [q]. *)
Module Spec.

Definition is_special (d q c : ascii) : bool :=
  Ascii.eqb c d || Ascii.eqb c q || Ascii.eqb c CR || Ascii.eqb c LF.

Fixpoint requires_quoting (d q : ascii) (field : string) : bool :=
  match field with
  | "" => false
  | String c t => is_special d q c || requires_quoting d q t
  end.

Fixpoint doubled (q : ascii) (field : string) : string :=
  match field with
  | "" => ""
  | String c t =>
      if Ascii.eqb c q then String q (String q (doubled q t))
      else String c (doubled q t)
  end.

Definition emitted_field (d q : ascii) (field : string) : string :=
  if requires_quoting d q field
  then String q (doubled q field ++ String q "")
  else field.

Fixpoint joined (d : ascii) (texts : list string) : string :=
  match texts with
  | [] => ""
  | x :: rest =>
      match rest with
      | [] => x
      | _ :: _ => x ++ String d (joined d rest)
      end
  end.

Definition emitted_row (d q : ascii) (fields : list string) : string :=
  joined d (map (emitted_field d q) fields) ++ String LF "".

(** All the lines of [writerows], one after the other. *)
Definition emitted_rows (d q : ascii) (rows : list (list string)) : string :=
  fold_right (fun row text => emitted_row d q row ++ text) "" rows.

End Spec.

(** ** benchmark.py: the test data and its way through the writer and the reader *)
Module Benchmark.

(** [string.ascii_letters] *)
Definition ascii_letters : string :=
  "abcdefghijklmnopqrstuvwxyzABCDEFGHIJKLMNOPQRSTUVWXYZ".

Section Random.

(** The module [random]: the state of the generator, and the two draws
    [generate_test_data] makes, [random.choice(seq)] and
    [random.choices(population, k=k)], each returning its value and the new
    state. *)
Context {rng : Type}.
Context (choice : list string -> rng -> string * rng).
Context (choices : string -> nat -> rng -> list string * rng).

(** The body of the inner loop: the field put in the row. *)
Definition generate_field (g : rng) : string * rng :=
  let (field_type, g) := choice ["simple"; "quoted"; "multiline"] g in
  if field_type =? "simple" then
    let (letters, g) := choices ascii_letters 10 g in
    (join "" letters, g)
  else if field_type =? "quoted" then
    let (letters, g) := choices ascii_letters 10 g in
    (join "" letters ++ ",quoted", g)
  else
    ("Line 1" ++ nl ++ "Line 2", g).

(** [for _ in range(cols): ...; row.append(field)] *)
Fixpoint generate_row (cols : nat) (row : list string) (g : rng)
  : list string * rng :=
  match cols with
  | O => (row, g)
  | S k =>
      let (field, g) := generate_field g in
      generate_row k (row ++ [field])%list g
  end.

(** [for _ in range(rows): row = []; ...; data.append(row)] *)
Fixpoint generate_rows (rows cols : nat) (data : list (list string)) (g : rng)
  : list (list string) * rng :=
  match rows with
  | O => (data, g)
  | S k =>
      let (row, g) := generate_row cols [] g in
      generate_rows k cols (data ++ [row])%list g
  end.

Definition generate_test_data (rows cols : nat) (g : rng)
  : list (list string) * rng :=
  generate_rows rows cols [] g.

End Random.

(** What [main] and [benchmark_read] do with the data, timing left out: the
    rows are written with a [CustomCsvWriter] on an empty [StringIO], and the
    text is read with a [CustomCsvReader] on a [StringIO] of it. *)
Definition written_then_read (data : list (list string))
  : option (completion (list (list string))) :=
  let output := W.writerows (fun s => s) (W.new "") data in
  let csv_text := TextIO.getvalue (W.fileobj output) in
  option_map snd (R.read (R.new (TextIO.StringIO csv_text))).

(** A generator to run the functions on: the state counts the choices made,
    the choice goes round the sequence, and the letters drawn are the first
    of the population. *)
Definition counting_choice (seq : list string) (g : nat) : string * nat :=
  (nth (g mod 3) seq "", S g).

Definition counting_choices (population : string) (k : nat) (g : nat)
  : list string * nat :=
  match population with
  | "" => ([], g)
  | String a _ => (repeat (String a "") k, g)
  end.

End Benchmark.

(** The text the reader has not consumed yet: its buffer, then the stream. *)
Definition unread (self : R.t) : string := R.buffer self ++ text_of (R.fileobj self).

(** ** The end of the input *)




(** ** Strings *)

Lemma append_nil_r (s : string) : s ++ "" = s.
Proof. induction s as [|c s IH]; simpl; [reflexivity | now rewrite IH]. Qed.

Lemma append_assoc (a b c : string) : (a ++ b) ++ c = a ++ (b ++ c).
Proof. induction a as [|x a IH]; simpl; [reflexivity | now rewrite IH]. Qed.

Lemma length_append (a b : string) :
  String.length (a ++ b) = String.length a + String.length b.
Proof. induction a as [|x a IH]; simpl; [reflexivity | now rewrite IH]. Qed.

Lemma take_drop (n : nat) (s : string) : take n s ++ drop n s = s.
Proof.
  revert s; induction n as [|n IH]; intros [|c s]; simpl; try reflexivity.
  now rewrite IH.
Qed.

Lemma take_all (n : nat) (s : string) : String.length s <= n -> take n s = s.
Proof.
  revert s; induction n as [|n IH]; intros [|c s]; simpl; intros H;
    try reflexivity; try lia.
  rewrite IH; [reflexivity | lia].
Qed.

Lemma length_take (n : nat) (s : string) :
  n <= String.length s -> String.length (take n s) = n.
Proof.
  revert s; induction n as [|n IH]; intros [|c s]; simpl; intros H;
    try reflexivity; try lia.
  rewrite IH; [reflexivity | lia].
Qed.

Lemma char_eqb (c d : ascii) : (String c "" =? String d "") = Ascii.eqb c d.
Proof. simpl. destruct (Ascii.eqb c d); reflexivity. Qed.

Lemma truthy_false (s : string) : truthy s = false <-> s = "".
Proof. destruct s; simpl; split; congruence. Qed.

Lemma truthy_true (s : string) : truthy s = true <-> s <> "".
Proof. destruct s; simpl; split; congruence. Qed.

(** ** The stream: what one [read] does to the pending characters *)

Lemma read_length (f f' : TextIO.readable) (n : nat) (chunk : string) :
  TextIO.read f n = (chunk, f') ->
  String.length chunk + list_sum (map String.length f') =
  list_sum (map String.length f).
Proof.
  destruct f as [|piece rest]; simpl.
  - intros H; inversion H; reflexivity.
  - destruct (String.length piece <=? n)%nat eqn:E; intros H; inversion H; subst; simpl.
    + reflexivity.
    + rewrite <- (take_drop n piece) at 3. rewrite length_append. lia.
Qed.

Lemma read_one_piece (text : string) (rest : TextIO.readable) :
  String.length text <= 4096 ->
  TextIO.read (text :: rest) 4096 = (text, rest).
Proof.
  intros H. unfold TextIO.read.
  destruct (Nat.leb_spec (String.length text) 4096); [reflexivity | lia].
Qed.

(** ** The loop: progress, totality, fuel *)

Lemma fill_inl (self s : R.t) (fr : R.locals) :
  R.fill self fr = inl s ->
  R.buffer s <> "" /\ R.pending s = R.pending self /\
  R.delimiter s = R.delimiter self /\ R.quotechar s = R.quotechar self /\
  R.eof s = R.eof self.
Proof.
  unfold R.fill. destruct (truthy (R.buffer self)) eqn:B; simpl.
  - intros H; inversion H; subst. apply truthy_true in B. repeat split; assumption.
  - destruct (TextIO.read (R.fileobj self) 4096) as [chunk f] eqn:E.
    destruct (truthy chunk) eqn:C; simpl.
    + intros H; inversion H; subst; simpl. apply truthy_true in C.
      apply truthy_false in B. apply read_length in E.
      unfold R.pending; simpl. rewrite B; simpl. repeat split; auto.
    + destruct (if truthy (R.current_field fr) || R.in_quotes fr
                then (R.row fr ++ [R.current_field fr])%list else R.row fr);
        intros H; inversion H.
Qed.

Lemma fill_inr (self s : R.t) (fr : R.locals) (c : completion (list string)) :
  R.fill self fr = inr (s, c) ->
  R.buffer self = "" /\ fst (TextIO.read (R.fileobj self) 4096) = "" /\
  s = R.set_eof (R.set_fileobj self (snd (TextIO.read (R.fileobj self) 4096))) true /\
  ((c = Raise StopIteration /\
    R.row fr = [] /\ R.current_field fr = "" /\ R.in_quotes fr = false) \/
   (exists r, c = Return r /\ r <> [] /\
      r = if truthy (R.current_field fr) || R.in_quotes fr
          then (R.row fr ++ [R.current_field fr])%list else R.row fr)).
Proof.
  unfold R.fill. destruct (truthy (R.buffer self)) eqn:B; simpl; [discriminate|].
  apply truthy_false in B.
  destruct (TextIO.read (R.fileobj self) 4096) as [chunk f] eqn:E.
  destruct (truthy chunk) eqn:C; simpl; [discriminate|].
  apply truthy_false in C. subst chunk.
  destruct (truthy (R.current_field fr) || R.in_quotes fr) eqn:Q.
  - destruct (R.row fr ++ [R.current_field fr])%list eqn:A.
    + destruct (R.row fr); discriminate.
    + intros H; inversion H; subst. repeat split; auto.
      right. eexists; repeat split; congruence.
  - apply orb_false_iff in Q as [Q1 Q2]. apply truthy_false in Q1.
    destruct (R.row fr) eqn:A; intros H; inversion H; subst; repeat split; auto.
    right. eexists; repeat split; congruence.
Qed.

Lemma loop_body_progress (self self' : R.t) (fr fr' : R.locals) :
  R.loop_body self fr = inl (self', fr') ->
  R.pending self' < R.pending self /\
  R.delimiter self' = R.delimiter self /\ R.quotechar self' = R.quotechar self.
Proof.
  unfold R.loop_body. destruct (R.fill self fr) as [s|e] eqn:F; [|discriminate].
  apply fill_inl in F as (Hb & Hp & Hd & Hq & _). rewrite <- Hp, <- Hd, <- Hq.
  destruct s as [f d q b e]; simpl in *.
  destruct b as [|c b]; [congruence|]. simpl.
  unfold R.pending; simpl.
  repeat match goal with
  | |- context [if ?x then _ else _] => destruct x eqn:?
  end; intros H; inversion H; subst; simpl;
  try (split; [lia | split; reflexivity]).
  destruct b; simpl in *; [discriminate|]. split; [lia | split; reflexivity].
Qed.

Lemma loop_body_no_index_error (self s : R.t) (fr : R.locals) :
  R.loop_body self fr <> inr (s, Raise IndexError).
Proof.
  unfold R.loop_body. destruct (R.fill self fr) as [s0|[s0 c]] eqn:F.
  - apply fill_inl in F as (Hb & _).
    destruct s0 as [f d q b e]; simpl in *.
    destruct b as [|c b]; [congruence|]. simpl.
    repeat match goal with
    | |- context [if ?x then _ else _] => destruct x eqn:?
    end; discriminate.
  - apply fill_inr in F as (_ & _ & _ & [(-> & _)|(r & -> & _)]); discriminate.
Qed.

Lemma while_true_total (fuel : nat) : forall (self : R.t) (fr : R.locals),
  R.pending self < fuel ->
  exists s c, R.while_true fuel self fr = Some (s, c) /\ c <> Raise IndexError.
Proof.
  induction fuel as [|n IH]; intros self fr H; [lia|]. simpl.
  destruct (R.loop_body self fr) as [[s' fr']|[s c]] eqn:B.
  - apply loop_body_progress in B as (Hp & _). apply IH. lia.
  - exists s, c. split; [reflexivity|]. intros ->.
    exact (loop_body_no_index_error _ _ _ B).
Qed.

Lemma while_true_more_fuel (n m : nat) (self : R.t) (fr : R.locals)
      (res : R.t * completion (list string)) :
  R.while_true n self fr = Some res -> n <= m -> R.while_true m self fr = Some res.
Proof.
  revert m self fr; induction n as [|n IH]; intros m self fr H L; [discriminate|].
  destruct m as [|m]; [lia|]. simpl in *.
  destruct (R.loop_body self fr) as [[s' fr']|e]; [|assumption].
  apply IH; [assumption | lia].
Qed.

Lemma while_true_fuel_irrelevant (n m : nat) (self : R.t) (fr : R.locals)
      (a b : R.t * completion (list string)) :
  R.while_true n self fr = Some a -> R.while_true m self fr = Some b -> a = b.
Proof.
  intros Ha Hb.
  apply (while_true_more_fuel _ (Nat.max n m)) in Ha; [|lia].
  apply (while_true_more_fuel _ (Nat.max n m)) in Hb; [|lia].
  congruence.
Qed.

Lemma runs_to_step (self self' : R.t) (fr fr' : R.locals)
      (res : R.t * completion (list string)) :
  R.loop_body self fr = inl (self', fr') ->
  runs_to self' fr' res -> runs_to self fr res.
Proof. intros B [n H]. exists (S n). simpl. now rewrite B. Qed.

Lemma runs_to_end (self : R.t) (fr : R.locals)
      (res : R.t * completion (list string)) :
  R.loop_body self fr = inr res -> runs_to self fr res.
Proof. intros B. exists 1. simpl. now rewrite B. Qed.

Lemma next_of_runs_to (self : R.t) (res : R.t * completion (list string)) :
  R.eof self && negb (truthy (R.buffer self)) = false ->
  runs_to self R.fresh res -> R.__next__ self = Some res.
Proof.
  intros E [n H]. unfold R.__next__. rewrite E.
  destruct (while_true_total (S (R.pending self)) self R.fresh) as (s & c & W & _);
    [lia|].
  rewrite W. f_equal. exact (while_true_fuel_irrelevant _ _ _ _ _ _ W H).
Qed.

(** ** Single steps of the loop on a buffered character *)

Lemma step_in_quotes_literal f d q e c rest row field :
  (String c "" =? q) = false ->
  R.loop_body (R.mk f d q (String c rest) e) (R.mkLocals row field true) =
  inl (R.mk f d q rest e, R.mkLocals row (field ++ String c "") true).
Proof.
  intros H. unfold R.loop_body, R.fill. cbn [R.buffer truthy negb getitem0 slice1 R.set_buffer
    R.quotechar R.delimiter R.fileobj R.eof R.in_quotes R.row R.current_field].
  rewrite H. rewrite !andb_false_r. reflexivity.
Qed.

Lemma step_open_quote f q d e rest row field :
  R.loop_body (R.mk f d (String q "") (String q rest) e) (R.mkLocals row field false) =
  inl (R.mk f d (String q "") rest e, R.mkLocals row field true).
Proof.
  unfold R.loop_body, R.fill. cbn [R.buffer truthy negb getitem0 slice1 R.set_buffer
    R.quotechar R.delimiter R.fileobj R.eof R.in_quotes R.row R.current_field].
  rewrite String.eqb_refl. reflexivity.
Qed.

Lemma step_escaped_quote f q d e rest row field :
  R.loop_body (R.mk f d (String q "") (String q (String q rest)) e)
              (R.mkLocals row field true) =
  inl (R.mk f d (String q "") rest e, R.mkLocals row (field ++ String q "") true).
Proof.
  unfold R.loop_body, R.fill, R.first_is.
  cbn [R.buffer truthy negb getitem0 slice1 R.set_buffer andb
    R.quotechar R.delimiter R.fileobj R.eof R.in_quotes R.row R.current_field].
  rewrite String.eqb_refl. reflexivity.
Qed.

Lemma step_closing_quote f q d e rest row field :
  R.first_is rest (String q "") = false ->
  R.loop_body (R.mk f d (String q "") (String q rest) e) (R.mkLocals row field true) =
  inl (R.mk f d (String q "") rest e, R.mkLocals row field false).
Proof.
  intros H. unfold R.loop_body, R.fill.
  cbn [R.buffer truthy negb getitem0 slice1 R.set_buffer
    R.quotechar R.delimiter R.fileobj R.eof R.in_quotes R.row R.current_field].
  rewrite String.eqb_refl, H. reflexivity.
Qed.

Lemma step_delimiter f d q e c rest row field :
  (String c "" =? q) = false -> (String c "" =? d) = true ->
  R.loop_body (R.mk f d q (String c rest) e) (R.mkLocals row field false) =
  inl (R.mk f d q rest e, R.mkLocals (row ++ [field]) "" false).
Proof.
  intros H1 H2. unfold R.loop_body, R.fill.
  cbn [R.buffer truthy negb getitem0 slice1 R.set_buffer
    R.quotechar R.delimiter R.fileobj R.eof R.in_quotes R.row R.current_field].
  rewrite H1, H2. reflexivity.
Qed.

Lemma step_plain f d q e c rest row field :
  (String c "" =? q) = false -> (String c "" =? d) = false ->
  c <> LF -> c <> CR ->
  R.loop_body (R.mk f d q (String c rest) e) (R.mkLocals row field false) =
  inl (R.mk f d q rest e, R.mkLocals row (field ++ String c "") false).
Proof.
  intros H1 H2 H3 H4. unfold R.loop_body, R.fill.
  cbn [R.buffer truthy negb getitem0 slice1 R.set_buffer
    R.quotechar R.delimiter R.fileobj R.eof R.in_quotes R.row R.current_field].
  rewrite H1, H2. unfold nl, cr. rewrite !char_eqb.
  apply Ascii.eqb_neq in H3, H4. rewrite H3, H4. reflexivity.
Qed.

Lemma step_terminator f d q e c rest row field :
  (String c "" =? q) = false -> (String c "" =? d) = false ->
  c = LF \/ c = CR ->
  R.loop_body (R.mk f d q (String c rest) e) (R.mkLocals row field false) =
  inr (R.mk f d q
         (if (String c "" =? cr) && R.first_is rest nl then slice1 rest else rest) e,
       Return (row ++ [field])%list).
Proof.
  intros H1 H2 H3. unfold R.loop_body, R.fill.
  cbn [R.buffer truthy negb getitem0 slice1 R.set_buffer
    R.quotechar R.delimiter R.fileobj R.eof R.in_quotes R.row R.current_field].
  rewrite H1, H2. cbn [andb].
  replace ((String c "" =? nl) || (String c "" =? cr)) with true.
  2:{ destruct H3 as [-> | ->]; reflexivity. }
  cbn [andb negb].
  destruct ((String c "" =? cr) && R.first_is rest nl); reflexivity.
Qed.

Lemma step_end_of_stream f d q e row field inq :
  fst (TextIO.read f 4096) = "" ->
  R.loop_body (R.mk f d q "" e) (R.mkLocals row field inq) =
  inr (R.mk (snd (TextIO.read f 4096)) d q "" true,
       match (if truthy field || inq then (row ++ [field])%list else row) with
       | [] => Raise StopIteration
       | r => Return r
       end).
Proof.
  intros H. unfold R.loop_body, R.fill.
  cbn [R.buffer truthy negb getitem0 slice1 R.set_buffer
    R.quotechar R.delimiter R.fileobj R.eof R.in_quotes R.row R.current_field].
  destruct (TextIO.read f 4096) as [chunk f'] eqn:E. simpl in H. subst chunk.
  cbn [truthy negb snd]. unfold R.set_eof, R.set_fileobj. cbn.
  destruct (if truthy field || inq then (row ++ [field])%list else row); reflexivity.
Qed.

(** The buffer is refilled and the character is classified in the same pass. *)
Lemma loop_body_refill f d q e chunk f' (fr : R.locals) :
  TextIO.read f 4096 = (chunk, f') -> chunk <> "" ->
  R.loop_body (R.mk f d q "" e) fr = R.loop_body (R.mk f' d q chunk e) fr.
Proof.
  intros E C. unfold R.loop_body, R.fill.
  cbn [R.buffer truthy negb R.fileobj]. rewrite E.
  apply truthy_true in C. rewrite C. cbn [negb].
  unfold R.set_buffer, R.set_fileobj; cbn. reflexivity.
Qed.

Lemma while_true_returns_nonempty (fuel : nat) :
  forall (self s : R.t) (fr : R.locals) (r : list string),
    R.while_true fuel self fr = Some (s, Return r) -> r <> [].
Proof.
  induction fuel as [|n IH]; intros self s fr r H; [discriminate|]. simpl in H.
  destruct (R.loop_body self fr) as [[s' fr']|ended] eqn:B.
  - exact (IH _ _ _ _ H).
  - inversion H; subst ended; clear H. unfold R.loop_body in B.
    destruct (R.fill self fr) as [s0|[s0 c0]] eqn:F.
    + destruct (getitem0 (R.buffer s0)); [|discriminate].
      repeat match type of B with
      | context [if ?x then _ else _] => destruct x
      end; inversion B; destruct (R.row fr); discriminate.
    + inversion B; subst. apply fill_inr in F as (_ & _ & _ & [(H & _)|(r' & H & Hr & _)]).
      * discriminate.
      * inversion H; subst. exact Hr.
Qed.

Lemma loop_body_return_measure (self s : R.t) (fr : R.locals) (r : list string) :
  R.loop_body self fr = inr (s, Return r) ->
  (R.eof s = true /\ R.buffer s = "") \/ R.pending s < R.pending self.
Proof.
  unfold R.loop_body. destruct (R.fill self fr) as [s0|[s0 c0]] eqn:F.
  - apply fill_inl in F as (Hb & Hp & _). rewrite <- Hp. intros H. right.
    destruct s0 as [f d q b e]; simpl in *.
    destruct b as [|c b]; [congruence|]. simpl in H. unfold R.pending.
    repeat match type of H with
    | context [if ?x then _ else _] => destruct x eqn:?
    end; inversion H; subst; simpl; try lia.
    destruct b; cbn [slice1 String.length]; lia.
  - intros H; inversion H; subst.
    apply fill_inr in F as (Hb & _ & -> & _). left. simpl. auto.
Qed.

Lemma while_true_return_measure (fuel : nat) :
  forall (self s : R.t) (fr : R.locals) (r : list string),
    R.while_true fuel self fr = Some (s, Return r) ->
    (R.eof s = true /\ R.buffer s = "") \/ R.pending s < R.pending self.
Proof.
  induction fuel as [|n IH]; intros self s fr r H; [discriminate|]. simpl in H.
  destruct (R.loop_body self fr) as [[s1 fr1]|ended] eqn:B.
  - apply loop_body_progress in B as (Hp & _).
    destruct (IH _ _ _ _ H) as [E|L]; [left; exact E | right; lia].
  - inversion H; subst. exact (loop_body_return_measure _ _ _ _ B).
Qed.

Lemma collect_total (fuel : nat) : forall (self : R.t) (acc : list (list string)),
  (if R.eof self && negb (truthy (R.buffer self)) then 0 else S (R.pending self)) < fuel ->
  exists s rows, R.collect fuel self acc = Some (s, Return rows).
Proof.
  induction fuel as [|n IH]; intros self acc H; [lia|].
  cbn [R.collect]. unfold R.__next__.
  destruct (R.eof self && negb (truthy (R.buffer self))) eqn:E.
  - exists self, acc. reflexivity.
  - destruct (while_true_total (S (R.pending self)) self R.fresh) as (s & c & W & N);
      [lia|].
    rewrite W. destruct c as [r|[|]]; [|eexists; eexists; reflexivity | congruence].
    apply IH. apply while_true_return_measure in W as [[E1 E2]|L].
    + rewrite E1, E2. simpl. lia.
    + destruct (R.eof s && negb (truthy (R.buffer s))); lia.
Qed.

(** [read] always returns: the list of the rows that were left. *)
Theorem read_total (self : R.t) :
  exists s rows, R.read self = Some (s, Return rows).
Proof.
  apply collect_total.
  destruct (R.eof self && negb (truthy (R.buffer self))); lia.
Qed.

Lemma read_first_char (c : ascii) (more : string) (others : TextIO.readable) :
  exists t f', TextIO.read (String c more :: others) 4096 = (String c t, f').
Proof.
  unfold TextIO.read.
  destruct (String.length (String c more) <=? 4096)%nat.
  - exists more, others. reflexivity.
  - exists (take 4095 more), (drop 4096 (String c more) :: others). reflexivity.
Qed.

(** ** An unterminated quoted field, and where StopIteration is raised *)

Lemma prefix_empty (s : string) : prefix "" s = true.
Proof. destruct s; reflexivity. Qed.

Lemma contains_char_cons (q c : ascii) (s : string) :
  contains (String q "") (String c s) = Ascii.eqb q c || contains (String q "") s.
Proof.
  cbn [contains prefix]. destruct (ascii_dec q c) as [->|N].
  - rewrite prefix_empty, Ascii.eqb_refl. reflexivity.
  - apply Ascii.eqb_neq in N. rewrite N. reflexivity.
Qed.

Lemma contains_char_app (q : ascii) (a b : string) :
  contains (String q "") (a ++ b) = contains (String q "") a || contains (String q "") b.
Proof.
  induction a as [|c a IH].
  - simpl. destruct b; reflexivity.
  - cbn [append]. rewrite !contains_char_cons, IH. apply orb_assoc.
Qed.

Lemma loop_body_stop (self s : R.t) (fr : R.locals) :
  R.loop_body self fr = inr (s, Raise StopIteration) ->
  R.buffer self = "" /\ fst (TextIO.read (R.fileobj self) 4096) = "" /\
  R.row fr = [] /\ R.current_field fr = "" /\ R.in_quotes fr = false /\
  R.buffer s = "" /\ R.eof s = true.
Proof.
  unfold R.loop_body. destruct (R.fill self fr) as [s0|[s0 c0]] eqn:F.
  - destruct (getitem0 (R.buffer s0)); [|discriminate].
    repeat match goal with
    | |- context [if ?x then _ else _] => destruct x
    end; discriminate.
  - intros H; inversion H; subst.
    apply fill_inr in F as (Hb & Hr & -> & [(_ & H1 & H2 & H3)|(r & Hc & _)]).
    + simpl. rewrite Hb. repeat split; assumption.
    + discriminate.
Qed.

Lemma while_true_stop (fuel : nat) : forall (self s : R.t) (fr : R.locals),
  R.while_true fuel self fr = Some (s, Raise StopIteration) ->
  exists self' fr',
    reaches self fr self' fr' /\
    R.loop_body self' fr' = inr (s, Raise StopIteration).
Proof.
  induction fuel as [|n IH]; intros self s fr H; [discriminate|]. simpl in H.
  destruct (R.loop_body self fr) as [[s1 fr1]|ended] eqn:B.
  - destruct (IH _ _ _ H) as (s' & fr' & Hr & Hb).
    exists s', fr'. split; [|exact Hb]. exact (reaches_pass _ _ _ _ _ _ B Hr).
  - inversion H; subst. exists self, fr. split; [constructor | exact B].
Qed.

Lemma read_nonempty_pieces (p chunk : string) (ps f' : TextIO.readable) :
  Forall (fun p => p <> "") (p :: ps) ->
  TextIO.read (p :: ps) 4096 = (chunk, f') ->
  chunk <> "" /\ Forall (fun p => p <> "") f' /\
  chunk ++ text_of f' = text_of (p :: ps).
Proof.
  intros Hne E. inversion Hne as [|? ? Hp Hps]; subst.
  unfold TextIO.read in E.
  destruct (Nat.leb_spec (String.length p) 4096) as [L|L]; inversion E; subst; clear E.
  - repeat split; assumption || reflexivity.
  - assert (String.length (take 4096 p) = 4096) as Lt by (apply length_take; lia).
    assert (String.length (drop 4096 p) <> 0) as Ld.
    { pose proof (f_equal String.length (take_drop 4096 p)) as LL.
      rewrite length_append in LL. lia. }
    repeat split.
    + intros Z. rewrite Z in Lt. discriminate Lt.
    + constructor; [|assumption]. intros Z. rewrite Z in Ld. now apply Ld.
    + cbn [text_of fold_right]. rewrite <- append_assoc, take_drop. reflexivity.
Qed.

(** Inside a quoted region, characters other than the quote character are
    taken over one by one, through every refill, until the stream ends. *)
Lemma drain_quoted (q : ascii) (d : string) (n : nat) :
  forall (pieces : list string),
    list_sum (map String.length pieces) <= n ->
    Forall (fun p => p <> "") pieces ->
    forall (b : string) (e : bool) (row : list string) (field : string),
      contains (String q "") (b ++ text_of pieces) = false ->
      runs_to (R.mk pieces d (String q "") b e) (R.mkLocals row field true)
              (R.mk [] d (String q "") "" true,
               Return (row ++ [(field ++ b ++ text_of pieces)%string])%list).
Proof.
  induction n as [|n IHn]; intros pieces Hn Hne;
    (induction b as [|c b IHb]; intros e row field Hb;
     [|cbn [append] in Hb; rewrite contains_char_cons in Hb;
       apply orb_false_iff in Hb as [Hc Hb];
       eapply runs_to_step;
       [apply step_in_quotes_literal; rewrite char_eqb, Ascii.eqb_sym; exact Hc
       |specialize (IHb e row (field ++ String c "") Hb);
        rewrite append_assoc in IHb; exact IHb]]);
    (destruct pieces as [|p ps];
     [apply runs_to_end; rewrite step_end_of_stream by reflexivity;
      cbn [TextIO.read snd text_of fold_right]; rewrite orb_true_r, !append_nil_r;
      destruct row; reflexivity|]).
  - (* no characters are left in the stream, so it has no piece *)
    exfalso. inversion Hne; subst. destruct p; [congruence | simpl in Hn; lia].
  - destruct (TextIO.read (p :: ps) 4096) as [chunk f'] eqn:E.
    destruct (read_nonempty_pieces _ _ _ _ Hne E) as (Hc & Hne' & Ht).
    pose proof (read_length _ _ _ _ E) as Hlen.
    cbn [append] in Hb. rewrite <- Ht in Hb.
    destruct chunk as [|c t]; [congruence|].
    cbn [append] in Hb. rewrite contains_char_cons in Hb.
    apply orb_false_iff in Hb as [Qc Qt].
    eapply runs_to_step.
    + rewrite (loop_body_refill _ _ _ _ _ _ _ E) by discriminate.
      apply step_in_quotes_literal. rewrite char_eqb, Ascii.eqb_sym. exact Qc.
    + assert (list_sum (map String.length f') <= n) as Hn'
          by (cbn [map list_sum fold_right String.length] in Hlen, Hn; lia).
      pose proof (IHn f' Hn' Hne' t e row (field ++ String c "") Qt) as IH.
      rewrite append_assoc in IH. cbn [append] in IH, Ht.
      rewrite Ht in IH. cbn [append]. exact IH.
Qed.

(** ** The writer against the specification's wording *)

Lemma requires_quoting_In (d q : ascii) (field : string) :
  Spec.requires_quoting d q field = true <->
  exists c, In c (list_ascii_of_string field) /\ (c = d \/ c = q \/ c = CR \/ c = LF).
Proof.
  induction field as [|x t IH]; simpl.
  - split; [discriminate | intros (c & [] & _)].
  - rewrite orb_true_iff, IH. unfold Spec.is_special.
    rewrite !orb_true_iff, !Ascii.eqb_eq. split.
    + intros [H|(c & Hc & H)].
      * exists x. split; [now left | tauto].
      * exists c. split; [now right | exact H].
    + intros (c & [->|Hc] & H).
      * left. tauto.
      * right. exists c. split; assumption.
Qed.

Lemma needs_quoting_spec (sink : TextIO.writable) (d q : ascii) (field : string) :
  W._needs_quoting (W.__init__ sink (String d "") (String q "")) field =
  Spec.requires_quoting d q field.
Proof.
  unfold W._needs_quoting, W.__init__; cbn [W.delimiter W.quotechar].
  induction field as [|x t IH].
  - reflexivity.
  - unfold nl, cr in *. rewrite !contains_char_cons. cbn [Spec.requires_quoting].
    rewrite <- IH. unfold Spec.is_special.
    rewrite (Ascii.eqb_sym x d), (Ascii.eqb_sym x q), (Ascii.eqb_sym x CR),
      (Ascii.eqb_sym x LF).
    destruct (Ascii.eqb d x), (Ascii.eqb q x), (Ascii.eqb CR x), (Ascii.eqb LF x),
      (contains (String d "") t), (contains (String q "") t),
      (contains (String LF "") t), (contains (String CR "") t); reflexivity.
Qed.

Lemma replace_quote_doubled (q : ascii) (field : string) :
  replace (String q "") (String q "" ++ String q "") field = Spec.doubled q field.
Proof.
  unfold replace. cbn [append].
  induction field as [|x t IH]; [reflexivity|].
  cbn [replace_from Spec.doubled prefix String.length Nat.sub].
  rewrite prefix_empty, (Ascii.eqb_sym x q).
  destruct (ascii_dec q x) as [->|N].
  - rewrite Ascii.eqb_refl. cbn [append]. now rewrite IH.
  - apply Ascii.eqb_neq in N. rewrite N. now rewrite IH.
Qed.

Lemma escape_field_spec (sink : TextIO.writable) (d q : ascii) (field : string) :
  W._escape_field (W.__init__ sink (String d "") (String q "")) field =
  Spec.emitted_field d q field.
Proof.
  unfold W._escape_field, Spec.emitted_field. rewrite needs_quoting_spec.
  destruct (Spec.requires_quoting d q field); [|reflexivity].
  cbn [W.__init__ W.quotechar]. rewrite replace_quote_doubled. reflexivity.
Qed.

Lemma join_spec (d : ascii) (texts : list string) :
  join (String d "") texts = Spec.joined d texts.
Proof.
  induction texts as [|x rest IH]; [reflexivity|].
  destruct rest as [|y rest]; [reflexivity|].
  change (join (String d "") (x :: y :: rest))
    with (x ++ String d "" ++ join (String d "") (y :: rest)).
  rewrite IH. reflexivity.
Qed.

Lemma writerow_spec (A : Type) (str : A -> string) (sink : TextIO.writable)
      (d q : ascii) (row : list A) :
  W.writerow str (W.__init__ sink (String d "") (String q "")) row =
  W.__init__ (sink ++ Spec.emitted_row d q (map str row)) (String d "") (String q "").
Proof.
  unfold W.writerow, TextIO.write, Spec.emitted_row, W.__init__.
  cbn [W.fileobj W.delimiter W.quotechar]. rewrite join_spec, map_map.
  change nl with (String LF ""). f_equal. f_equal. f_equal. f_equal.
  apply map_ext. intros a. apply (escape_field_spec sink).
Qed.

(** ** Writing a row and reading it back *)

Lemma runs_to_refill f d q e chunk f' (fr : R.locals)
      (res : R.t * completion (list string)) :
  TextIO.read f 4096 = (chunk, f') -> chunk <> "" ->
  runs_to (R.mk f' d q chunk e) fr res -> runs_to (R.mk f d q "" e) fr res.
Proof.
  intros E C [n H]. exists n. destruct n as [|n]; [discriminate|].
  simpl in *. now rewrite (loop_body_refill _ _ _ _ _ _ _ E C).
Qed.

Section RoundTrip.

(** A supported configuration: the delimiter and the quote character are
    single characters, distinct from each other and from CR and LF. *)
Variables d q : ascii.
Hypothesis d_not_q : d <> q.
Hypothesis d_not_terminator : d <> CR /\ d <> LF.
Hypothesis q_not_terminator : q <> CR /\ q <> LF.

Local Notation "'D'" := (String d "").
Local Notation "'Q'" := (String q "").

Lemma scan_plain f e row (plain : string) :
  Spec.requires_quoting d q plain = false ->
  forall (tail acc : string) res,
    runs_to (R.mk f D Q tail e) (R.mkLocals row (acc ++ plain) false) res ->
    runs_to (R.mk f D Q (plain ++ tail) e) (R.mkLocals row acc false) res.
Proof.
  induction plain as [|x plain IH]; intros Hp tail acc res H.
  - rewrite append_nil_r in H. exact H.
  - cbn [Spec.requires_quoting] in Hp. apply orb_false_iff in Hp as [Hx Hp].
    unfold Spec.is_special in Hx. rewrite !orb_false_iff, !Ascii.eqb_neq in Hx.
    destruct Hx as (((Xd & Xq) & Xc) & Xl).
    cbn [append]. eapply runs_to_step.
    + apply step_plain; try assumption; rewrite char_eqb;
        now apply Ascii.eqb_neq.
    + apply (IH Hp). rewrite append_assoc. exact H.
Qed.

Lemma scan_quoted_body f e row (body : string) :
  forall (tail acc : string) res,
    R.first_is tail Q = false ->
    runs_to (R.mk f D Q tail e) (R.mkLocals row (acc ++ body) false) res ->
    runs_to (R.mk f D Q (Spec.doubled q body ++ String q tail) e)
            (R.mkLocals row acc true) res.
Proof.
  induction body as [|x body IH]; intros tail acc res Ht H.
  - rewrite append_nil_r in H. cbn [Spec.doubled append].
    eapply runs_to_step; [apply step_closing_quote; exact Ht | exact H].
  - cbn [Spec.doubled]. destruct (Ascii.eqb_spec x q) as [->|N].
    + cbn [append]. eapply runs_to_step; [apply step_escaped_quote|].
      apply (IH _ _ _ Ht). rewrite append_assoc. exact H.
    + cbn [append]. eapply runs_to_step.
      * apply step_in_quotes_literal. rewrite char_eqb.
        now apply Ascii.eqb_neq.
      * apply (IH _ _ _ Ht). rewrite append_assoc. exact H.
Qed.

Lemma scan_field f e row (field tail : string) res :
  R.first_is tail Q = false ->
  runs_to (R.mk f D Q tail e) (R.mkLocals row field false) res ->
  runs_to (R.mk f D Q (Spec.emitted_field d q field ++ tail) e)
          (R.mkLocals row "" false) res.
Proof.
  intros Ht H. unfold Spec.emitted_field.
  destruct (Spec.requires_quoting d q field) eqn:E.
  - cbn [append]. rewrite append_assoc. cbn [append].
    eapply runs_to_step; [apply step_open_quote|].
    apply scan_quoted_body; assumption.
  - apply scan_plain; assumption.
Qed.

Lemma scan_row f e (fields : list string) :
  fields <> [] ->
  forall (row : list string) (rest : string),
    runs_to (R.mk f D Q
               (Spec.joined d (map (Spec.emitted_field d q) fields) ++ String LF rest) e)
            (R.mkLocals row "" false)
            (R.mk f D Q rest e, Return (row ++ fields)%list).
Proof.
  induction fields as [|x fields IH]; intros Hne row rest; [congruence|].
  destruct fields as [|y fields].
  - cbn [map Spec.joined]. apply scan_field.
    + unfold R.first_is. cbn [truthy getitem0 andb]. rewrite char_eqb.
      apply Ascii.eqb_neq. intros Z. now apply (proj2 q_not_terminator).
    + apply runs_to_end. rewrite step_terminator.
      * reflexivity.
      * rewrite char_eqb. apply Ascii.eqb_neq.
        intros Z. now apply (proj2 q_not_terminator).
      * rewrite char_eqb. apply Ascii.eqb_neq.
        intros Z. now apply (proj2 d_not_terminator).
      * left; reflexivity.
  - change (Spec.joined d (map (Spec.emitted_field d q) (x :: y :: fields)))
      with (Spec.emitted_field d q x ++
            String d (Spec.joined d (map (Spec.emitted_field d q) (y :: fields)))).
    rewrite append_assoc. cbn [append]. apply scan_field.
    + unfold R.first_is. cbn [truthy getitem0 andb]. rewrite char_eqb.
      now apply Ascii.eqb_neq.
    + eapply runs_to_step.
      * apply step_delimiter; rewrite char_eqb.
        -- now apply Ascii.eqb_neq.
        -- apply Ascii.eqb_refl.
      * specialize (IH ltac:(discriminate) (row ++ [x])%list rest).
        rewrite <- app_assoc in IH. exact IH.
Qed.

(** X1: a non-empty row, written and read back by a reader that gets the
    line (and whatever follows it) in one chunk, comes back as it was; the
    reader stops right after the line. *)
Theorem next_after_writerow (row : list string) (rest : string) :
  row <> [] ->
  String.length (Spec.emitted_row d q row ++ rest) <= 4096 ->
  R.__next__
    (R.__init__
       (TextIO.StringIO
          (TextIO.getvalue (W.fileobj (W.writerow (fun s => s) (W.__init__ "" D Q) row))
           ++ rest))
       D Q) =
  Some (R.mk [] D Q rest false, Return row).
Proof.
  intros Hne Hlen.
  rewrite writerow_spec, map_id. cbn [W.__init__ W.fileobj append].
  unfold TextIO.getvalue, TextIO.StringIO.
  apply next_of_runs_to; [reflexivity|].
  unfold R.__init__. eapply runs_to_refill.
  - apply read_one_piece. exact Hlen.
  - unfold Spec.emitted_row.
    destruct (Spec.joined d (map (Spec.emitted_field d q) row)); discriminate.
  - unfold Spec.emitted_row. rewrite append_assoc. cbn [append].
    apply (scan_row [] false row Hne [] rest).
Qed.

Lemma writerows_emits (rows : list (list string)) : forall sink : TextIO.writable,
  W.writerows (fun s => s) (W.__init__ sink D Q) rows =
  W.__init__ (sink ++ Spec.emitted_rows d q rows) D Q.
Proof.
  induction rows as [|row rows IH]; intros sink.
  - cbn. now rewrite append_nil_r.
  - cbn [W.writerows fold_left Spec.emitted_rows fold_right].
    rewrite writerow_spec, map_id.
    fold (W.writerows (fun s : string => s)
            (W.__init__ (sink ++ Spec.emitted_row d q row) D Q) rows).
    rewrite IH, append_assoc. reflexivity.
Qed.

Lemma next_buffered_row f e (row : list string) (rest : string) :
  row <> [] ->
  R.__next__ (R.mk f D Q (Spec.emitted_row d q row ++ rest) e) =
  Some (R.mk f D Q rest e, Return row).
Proof.
  intros Hne. apply next_of_runs_to.
  - cbn [R.eof R.buffer]. unfold Spec.emitted_row.
    destruct (Spec.joined d (map (Spec.emitted_field d q) row));
      cbn [append truthy negb]; apply andb_false_r.
  - unfold Spec.emitted_row. rewrite append_assoc. cbn [append].
    apply (scan_row f e row Hne [] rest).
Qed.

Lemma emitted_rows_length (rows : list (list string)) :
  length rows <= String.length (Spec.emitted_rows d q rows).
Proof.
  induction rows as [|row rows IH]; [apply Nat.le_0_l|].
  cbn [Spec.emitted_rows fold_right length]. fold (Spec.emitted_rows d q rows).
  unfold Spec.emitted_row. rewrite !length_append. cbn [String.length]. lia.
Qed.

Lemma collect_buffered_rows (rows : list (list string)) :
  Forall (fun row => row <> []) rows ->
  forall (fuel : nat) (acc : list (list string)),
    length rows < fuel ->
    R.collect fuel (R.mk [] D Q (Spec.emitted_rows d q rows) false) acc =
    Some (R.mk [] D Q "" true, Return (acc ++ rows)%list).
Proof.
  induction rows as [|row rows IH]; intros Hne fuel acc Hf;
    (destruct fuel as [|fuel]; [inversion Hf|]).
  - rewrite app_nil_r. reflexivity.
  - inversion Hne as [|? ? Hrow Hrows]; subst.
    cbn [R.collect Spec.emitted_rows fold_right]. fold (Spec.emitted_rows d q rows).
    rewrite (next_buffered_row _ _ _ _ Hrow).
    rewrite (IH Hrows) by (cbn [length] in Hf; lia).
    rewrite <- app_assoc. reflexivity.
Qed.

Lemma read_one_chunk (rows : list (list string)) :
  Forall (fun row => row <> []) rows ->
  String.length (Spec.emitted_rows d q rows) <= 4096 ->
  option_map snd
    (R.read
       (R.__init__
          (TextIO.StringIO
             (TextIO.getvalue
                (W.fileobj (W.writerows (fun s => s) (W.__init__ "" D Q) rows))))
          D Q)) =
  Some (Return rows).
Proof.
  intros Hne Hlen. rewrite writerows_emits. cbn [W.__init__ W.fileobj append].
  unfold TextIO.getvalue, TextIO.StringIO, R.read.
  destruct rows as [|row rows].
  - reflexivity.
  - inversion Hne as [|? ? Hrow Hrows]; subst.
    pose proof (emitted_rows_length (row :: rows)) as Hn.
    remember (Spec.emitted_rows d q (row :: rows)) as text eqn:Et.
    remember (S (R.pending (R.__init__ [text] D Q))) as fuel eqn:Ef.
    assert (length rows < fuel) as Hf.
    { subst fuel. unfold R.pending. cbn [R.__init__ R.buffer R.fileobj map list_sum
        fold_right String.length Nat.add]. cbn [length] in Hn. lia. }
    cbn [R.collect].
    assert (R.__next__ (R.__init__ [text] D Q) =
            Some (R.mk [] D Q (Spec.emitted_rows d q rows) false, Return row)) as ->.
    { apply next_of_runs_to; [reflexivity|].
      unfold R.__init__. eapply runs_to_refill.
      - apply read_one_piece. exact Hlen.
      - subst text. cbn [Spec.emitted_rows fold_right]. unfold Spec.emitted_row.
        destruct (Spec.joined d (map (Spec.emitted_field d q) row)); discriminate.
      - subst text. cbn [Spec.emitted_rows fold_right]. fold (Spec.emitted_rows d q rows).
        unfold Spec.emitted_row. rewrite append_assoc. cbn [append].
        apply (scan_row [] false row Hrow [] (Spec.emitted_rows d q rows)). }
    rewrite (collect_buffered_rows rows Hrows _ _ Hf). reflexivity.
Qed.

(** X2: rows written with [writerows] into a text of at most one chunk are
    the rows [read] returns, when none of them is the empty row. *)
Theorem read_after_writerows (rows : list (list string)) :
  Forall (fun row => row <> []) rows ->
  String.length (Spec.emitted_rows d q rows) <= 4096 ->
  option_map snd
    (R.read
       (R.__init__
          (TextIO.StringIO
             (TextIO.getvalue
                (W.fileobj (W.writerows (fun s => s) (W.__init__ "" D Q) rows))))
          D Q)) =
  Some (Return rows).
Proof. exact (read_one_chunk rows). Qed.

End RoundTrip.

(** ** The properties of the specification *)

(** C1: a row whose line is longer than one chunk of 4096 characters does not
    always come back.  The row of one field, 4094 letters followed by a quote
    character, is written as a line of 4099 characters whose doubled quote
    sits on characters 4096 and 4097; [StringIO] hands over the first 4096,
    the reader finds its buffer empty after the first of the two quotes and
    takes it for the closing quote, and the field comes back without its
    quote character. *)
Theorem roundtrip_loses_quote_at_chunk_boundary :
  let field := times "a" 4094 ++ dquote in
  let line :=
    TextIO.getvalue (W.fileobj (W.writerow (fun s => s) (W.new "") [field])) in
  line = dquote ++ times "a" 4094 ++ dquote ++ dquote ++ dquote ++ nl /\
  String.length line = 4099 /\
  option_map snd (R.__next__ (R.new (TextIO.StringIO line))) =
    Some (Return [times "a" 4094]) /\
  [times "a" 4094] <> [field].
Proof.
  cbv zeta. split; [|split; [|split]].
  - vm_compute; reflexivity.
  - vm_compute; reflexivity.
  - vm_compute; reflexivity.
  - intros H. apply (f_equal (fun l => map String.length l)) in H.
    vm_compute in H. discriminate H.
Qed.

(** C2: with a one-character delimiter and quote character, [writerow]
    appends to the sink exactly the row as the specification words it: the
    fields, each converted with [str], quoted with doubled quotes when and
    only when it holds the delimiter, the quote character, CR or LF and left
    as it is otherwise, joined by the delimiter and closed by one LF. *)
Theorem writerow_emits_specified_row
    (A : Type) (str : A -> string) (sink : TextIO.writable) (d q : ascii)
    (row : list A) :
  let self := W.__init__ sink (String d "") (String q "") in
  W.fileobj (W.writerow str self row) = sink ++ Spec.emitted_row d q (map str row) /\
  (forall field : string,
      W._needs_quoting self field = true <->
      exists c, In c (list_ascii_of_string field) /\
                (c = d \/ c = q \/ c = CR \/ c = LF)) /\
  (forall field : string,
      W._needs_quoting self field = true ->
      W._escape_field self field = String q (Spec.doubled q field ++ String q "")) /\
  (forall field : string,
      W._needs_quoting self field = false -> W._escape_field self field = field).
Proof.
  intros self. split; [|split; [|split]].
  - subst self. rewrite writerow_spec. reflexivity.
  - intros field. unfold self. rewrite needs_quoting_spec. apply requires_quoting_In.
  - intros field H. unfold self in *. rewrite escape_field_spec.
    rewrite needs_quoting_spec in H. unfold Spec.emitted_field. now rewrite H.
  - intros field H. unfold W._escape_field. now rewrite H.
Qed.

Lemma writerow_emits_specified_row_witness :
  W._escape_field (W.new "") ("x,y" ++ dquote) =
    dquote ++ "x,y" ++ dquote ++ dquote ++ dquote.
Proof.
  apply (proj1 (proj2 (proj2 (writerow_emits_specified_row
           string (fun s => s) "" ","%char DQ []))) ("x,y" ++ dquote)).
  vm_compute; reflexivity.
Defined.

(** C3: inside a quoted region a delimiter, a CR or an LF is appended to the
    current field as it is; the row and the quoted mode are left alone and the
    loop goes on.  The two inputs of the specification each parse to one row. *)
Theorem quoted_region_keeps_delimiters_and_terminators
    f d q e c rest row field :
  String c "" = d \/ c = LF \/ c = CR ->
  String c "" <> q ->
  R.loop_body (R.mk f d q (String c rest) e) (R.mkLocals row field true) =
    inl (R.mk f d q rest e, R.mkLocals row (field ++ String c "") true) /\
  parse (dquote ++ "a,b" ++ dquote ++ ",c" ++ nl) = Some (Return [["a,b"; "c"]]) /\
  parse (dquote ++ "line1" ++ nl ++ "line2" ++ dquote ++ ",x" ++ nl) =
    Some (Return [["line1" ++ nl ++ "line2"; "x"]]).
Proof.
  intros _ Hq. split; [|split; vm_compute; reflexivity].
  apply step_in_quotes_literal. now apply String.eqb_neq.
Qed.

Lemma quoted_region_keeps_delimiters_and_terminators_witness :
  R.loop_body (R.mk [] "," dquote ("," ++ "b" ++ dquote) false) (R.mkLocals [] "a" true) =
    inl (R.mk [] "," dquote ("b" ++ dquote) false, R.mkLocals [] "a," true).
Proof.
  apply (quoted_region_keeps_delimiters_and_terminators
           [] "," dquote false ","%char ("b" ++ dquote) [] "a").
  - left; reflexivity.
  - vm_compute; discriminate.
Defined.

(** C4: outside a quoted region a CR or an LF closes the current field and
    returns the row at once; after a CR a buffered LF is consumed with it, and
    nothing else is.  The input a,b CR LF c,d LF parses to two rows. *)
Theorem terminator_outside_quotes_returns_row
    f d q e c rest row field :
  c = LF \/ c = CR ->
  String c "" <> q -> String c "" <> d ->
  (exists b,
      R.loop_body (R.mk f d q (String c rest) e) (R.mkLocals row field false) =
        inr (R.mk f d q b e, Return (row ++ [field])%list) /\
      (c = CR -> forall t, rest = String LF t -> b = t) /\
      (c = CR -> (forall t, rest <> String LF t) -> b = rest) /\
      (c = LF -> b = rest)) /\
  parse ("a,b" ++ cr ++ nl ++ "c,d" ++ nl) = Some (Return [["a"; "b"]; ["c"; "d"]]) /\
  parse ("a" ++ cr ++ "b" ++ nl ++ "c" ++ nl) = Some (Return [["a"]; ["b"]; ["c"]]).
Proof.
  intros Hc Hq Hd. split; [|split; vm_compute; reflexivity].
  eexists. split.
  - apply step_terminator; [now apply String.eqb_neq | now apply String.eqb_neq | exact Hc].
  - repeat split.
    + intros -> t ->. reflexivity.
    + intros -> Hn. destruct rest as [|x rest]; [reflexivity|].
      cbn [String.eqb Ascii.eqb andb]. unfold R.first_is, nl. cbn [truthy getitem0 andb].
      rewrite char_eqb. destruct (Ascii.eqb_spec x LF) as [->|]; [|reflexivity].
      exfalso. exact (Hn rest eq_refl).
    + intros ->. reflexivity.
Qed.

Lemma terminator_outside_quotes_returns_row_witness :
  exists b,
    R.loop_body (R.mk [] "," dquote (cr ++ nl ++ "c,d") false) (R.mkLocals ["a"] "b" false) =
      inr (R.mk [] "," dquote b false, Return ["a"; "b"]) /\ b = "c,d".
Proof.
  destruct (terminator_outside_quotes_returns_row
              [] "," dquote false CR (nl ++ "c,d") ["a"] "b") as [(b & H & H1 & _) _].
  - right; reflexivity.
  - vm_compute; discriminate.
  - vm_compute; discriminate.
  - exists b. split; [exact H | exact (H1 eq_refl "c,d" eq_refl)].
Defined.

(** C6: on a quote character inside a quoted region only the buffered
    character after it is looked at.  A buffered quote makes an escaped quote
    (one quote appended, both consumed); any other buffered character, or an
    empty buffer, closes the quoted region, and the stream [f] is not read.
    So a doubled quote cut by a chunk boundary closes and reopens the region. *)
Theorem quote_lookahead_is_buffer_only
    (f : TextIO.readable) (d : string) (q c : ascii) (e : bool)
    (rest : string) (row : list string) (field : string) :
  R.loop_body (R.mk f d (String q "") (String q (String c rest)) e)
              (R.mkLocals row field true) =
    inl (if Ascii.eqb c q
         then (R.mk f d (String q "") rest e,
               R.mkLocals row (field ++ String q "") true)
         else (R.mk f d (String q "") (String c rest) e,
               R.mkLocals row field false)) /\
  R.loop_body (R.mk f d (String q "") (String q "") e) (R.mkLocals row field true) =
    inl (R.mk f d (String q "") "" e, R.mkLocals row field false) /\
  parse_pieces [dquote ++ "a" ++ dquote ++ dquote ++ "b" ++ dquote ++ ",c" ++ nl] =
    Some (Return [["a" ++ dquote ++ "b"; "c"]]) /\
  parse_pieces [dquote ++ "a" ++ dquote; dquote ++ "b" ++ dquote ++ ",c" ++ nl] =
    Some (Return [["ab"; "c"]]).
Proof.
  split; [|split; [|split; vm_compute; reflexivity]].
  - destruct (Ascii.eqb_spec c q) as [->|N].
    + apply step_escaped_quote.
    + apply step_closing_quote. unfold R.first_is. cbn [truthy getitem0 andb].
      rewrite char_eqb. now apply Ascii.eqb_neq.
  - apply step_closing_quote. reflexivity.
Qed.

(** C7: a call of [__next__] always ends, and ends with a row or with
    StopIteration, never with another exception.  StopIteration is raised
    either at the entry check (end of file seen, buffer empty) or in the loop
    at a state with an empty buffer, an exhausted stream and nothing
    accumulated: no field, no row, not in quotes.  A quoted field that is
    never closed takes the rest of the stream and is returned as one field. *)
Theorem reader_raises_only_end_of_input :
  (forall self : R.t,
      exists s c, R.__next__ self = Some (s, c) /\
                  (c = Raise StopIteration \/ exists r, c = Return r)) /\
  (forall self s : R.t,
      R.__next__ self = Some (s, Raise StopIteration) ->
      R.buffer s = "" /\ R.eof s = true /\
      ((R.eof self = true /\ R.buffer self = "" /\ s = self) \/
       (exists self' : R.t,
           reaches self R.fresh self' (R.mkLocals [] "" false) /\
           R.buffer self' = "" /\
           fst (TextIO.read (R.fileobj self') 4096) = ""))) /\
  (forall (pieces : list string) (d : string) (q : ascii) (text : string),
      Forall (fun p => p <> "") pieces ->
      text_of pieces = String q text ->
      contains (String q "") text = false ->
      option_map snd (R.__next__ (R.__init__ pieces d (String q ""))) =
        Some (Return [text])).
Proof.
  split; [|split].
  - intros self. unfold R.__next__.
    destruct (R.eof self && negb (truthy (R.buffer self))).
    + exists self, (Raise StopIteration). split; [reflexivity | left; reflexivity].
    + destruct (while_true_total (S (R.pending self)) self R.fresh) as (s & c & W & N);
        [lia|].
      exists s, c. split; [exact W|].
      destruct c as [r|[|]]; [right; now exists r | left; reflexivity | congruence].
  - intros self s H. unfold R.__next__ in H.
    destruct (R.eof self && negb (truthy (R.buffer self))) eqn:E.
    + inversion H; subst. apply andb_true_iff in E as [E1 E2].
      apply negb_true_iff, truthy_false in E2. repeat split; auto.
    + apply while_true_stop in H as (self' & fr' & Hr & Hb).
      apply loop_body_stop in Hb as (B & F & R1 & R2 & R3 & Bs & Es).
      repeat split; [assumption.. |]. right. exists self'.
      destruct fr' as [r f i]; simpl in *; subst. repeat split; assumption.
  - intros pieces d q text Hne Ht Hq.
    destruct pieces as [|p ps]; [discriminate|].
    destruct (TextIO.read (p :: ps) 4096) as [chunk f'] eqn:E.
    destruct (read_nonempty_pieces _ _ _ _ Hne E) as (Hc & Hne' & Htx).
    rewrite Ht in Htx. destruct chunk as [|c t]; [congruence|].
    cbn [append] in Htx. inversion Htx; subst c text.
    assert (runs_to (R.__init__ (p :: ps) d (String q "")) R.fresh
              (R.mk [] d (String q "") "" true, Return [t ++ text_of f'])) as Hrun.
    { eapply runs_to_step.
      - unfold R.__init__. rewrite (loop_body_refill _ _ _ _ _ _ _ E) by discriminate.
        apply step_open_quote.
      - apply (drain_quoted q d _ f' (Nat.le_refl _) Hne' t false [] "" Hq). }
    rewrite (next_of_runs_to (R.__init__ (p :: ps) d (String q "")) _ eq_refl Hrun).
    reflexivity.
Qed.

Lemma reader_raises_only_end_of_input_witness :
  option_map snd (R.__next__ (R.__init__ [dquote ++ "ab"; "c,d" ++ nl ++ "e"] "," dquote)) =
    Some (Return ["abc,d" ++ nl ++ "e"]).
Proof.
  apply (proj2 (proj2 reader_raises_only_end_of_input)
           [dquote ++ "ab"; "c,d" ++ nl ++ "e"] "," DQ ("abc,d" ++ nl ++ "e")).
  - repeat constructor; discriminate.
  - reflexivity.
  - vm_compute; reflexivity.
Defined.

(** C8: a row returned by [__next__] has at least one field.  An empty line
    is the row of one empty field, and a,,c LF keeps its empty middle field. *)
Theorem returned_row_has_a_field (self s : R.t) (r : list string) :
  R.__next__ self = Some (s, Return r) ->
  r <> [] /\
  parse nl = Some (Return [[""]]) /\
  parse ("a" ++ nl ++ nl ++ "b" ++ nl) = Some (Return [["a"]; [""]; ["b"]]) /\
  parse ("a,,c" ++ nl) = Some (Return [["a"; ""; "c"]]).
Proof.
  intros H. split; [|split; [|split]; vm_compute; reflexivity].
  unfold R.__next__ in H.
  destruct (R.eof self && negb (truthy (R.buffer self))); [discriminate|].
  exact (while_true_returns_nonempty _ _ _ _ _ H).
Qed.

Lemma returned_row_has_a_field_witness :
  R.__next__ (R.new (TextIO.StringIO nl)) =
    Some (R.mk [] "," dquote "" false, Return [""]) /\
  [""] <> @nil string.
Proof.
  assert (R.__next__ (R.new (TextIO.StringIO nl)) =
          Some (R.mk [] "," dquote "" false, Return [""])) as H
      by (vm_compute; reflexivity).
  split; [exact H|].
  exact (proj1 (returned_row_has_a_field _ _ _ H)).
Defined.

(** C9: the empty row is written as a lone LF, whatever the configuration,
    and that line reads back as the row of one empty field, not as the empty
    row. *)
Theorem empty_row_reads_back_as_one_empty_field
    (A : Type) (str : A -> string) (d q : string) :
  W.fileobj (W.writerow str (W.__init__ "" d q) []) = nl /\
  option_map snd
    (R.__next__
       (R.__init__
          (TextIO.StringIO (TextIO.getvalue (W.fileobj (W.writerow str (W.__init__ "" d q) []))))
          d q)) = Some (Return [""]) /\
  [""] <> @nil string.
Proof.
  split; [reflexivity|]. split; [|discriminate].
  unfold W.writerow, TextIO.getvalue, TextIO.write, TextIO.StringIO. cbn [map join W.fileobj W.__init__ append].
  unfold R.__next__, R.__init__. cbn [R.eof andb R.pending R.buffer R.fileobj map list_sum String.length nl Nat.add].
  unfold R.while_true, R.loop_body, R.fill.
  cbn [R.buffer truthy negb R.fileobj]. rewrite read_one_piece by (simpl; lia).
  cbn [nl truthy negb R.set_buffer R.set_fileobj R.buffer R.quotechar R.delimiter R.fileobj
       R.eof getitem0 slice1 R.fresh R.in_quotes R.row R.current_field].
  destruct (String LF "" =? q) eqn:Q; [reflexivity|].
  destruct (String LF "" =? d) eqn:D; reflexivity.
Qed.

(** C10: the LF after a CR is looked for in the buffer only.  When the CR is
    the last buffered character and the LF opens the next piece of the
    stream, the row ends at the CR, the stream is not read, and the next call
    returns the row of one empty field for the LF.  The same characters
    cut differently give different rows; with [StringIO] this happens when
    the CR is character 4096 of the text. *)
Theorem crlf_lookahead_is_buffer_only
    (d q : string) (e : bool) (row : list string) (field more : string)
    (others : TextIO.readable) :
  cr <> q -> cr <> d -> nl <> q -> nl <> d ->
  R.loop_body (R.mk (String LF more :: others) d q cr e) (R.mkLocals row field false) =
    inr (R.mk (String LF more :: others) d q "" e, Return (row ++ [field])%list) /\
  (exists s, R.__next__ (R.mk (String LF more :: others) d q "" false) =
             Some (s, Return [""])) /\
  parse_pieces ["a,b" ++ cr ++ nl ++ "c,d" ++ nl] =
    Some (Return [["a"; "b"]; ["c"; "d"]]) /\
  parse_pieces ["a,b" ++ cr; nl ++ "c,d" ++ nl] =
    Some (Return [["a"; "b"]; [""]; ["c"; "d"]]) /\
  parse (times "x" 4095 ++ cr ++ nl ++ "y" ++ nl) =
    Some (Return [[times "x" 4095]; [""]; ["y"]]) /\
  parse (times "x" 4094 ++ cr ++ nl ++ "y" ++ nl) =
    Some (Return [[times "x" 4094]; ["y"]]).
Proof.
  intros Hcq Hcd Hnq Hnd.
  split; [|split; [|split; [|split; [|split]]; vm_compute; reflexivity]].
  - unfold cr. rewrite step_terminator.
    + reflexivity.
    + now apply String.eqb_neq.
    + now apply String.eqb_neq.
    + right; reflexivity.
  - destruct (read_first_char LF more others) as (t & f' & E).
    eexists. apply next_of_runs_to; [reflexivity|]. apply runs_to_end.
    rewrite (loop_body_refill _ _ _ _ _ _ _ E) by discriminate.
    unfold R.fresh. rewrite step_terminator.
    + reflexivity.
    + now apply String.eqb_neq.
    + now apply String.eqb_neq.
    + left; reflexivity.
Qed.

Lemma crlf_lookahead_is_buffer_only_witness :
  R.loop_body (R.mk [nl ++ "c,d" ++ nl] "," dquote cr false) (R.mkLocals ["a"] "b" false) =
    inr (R.mk [nl ++ "c,d" ++ nl] "," dquote "" false, Return ["a"; "b"]).
Proof.
  apply (crlf_lookahead_is_buffer_only "," dquote false ["a"] "b" ("c,d" ++ nl) []);
    vm_compute; discriminate.
Defined.

(** * Further properties of the code *)

(** The default configuration is a supported one. *)
Lemma comma_not_dquote : ","%char <> DQ.
Proof. discriminate. Qed.

Lemma comma_not_terminator : ","%char <> CR /\ ","%char <> LF.
Proof. split; discriminate. Qed.

Lemma dquote_not_terminator : DQ <> CR /\ DQ <> LF.
Proof. split; discriminate. Qed.

(** ** Reading through refills *)

Lemma reaches_trans self fr self1 fr1 self2 fr2 :
  reaches self fr self1 fr1 -> reaches self1 fr1 self2 fr2 ->
  reaches self fr self2 fr2.
Proof.
  induction 1 as [|? ? ? ? ? ? B _ IH]; intros H; [exact H|].
  exact (reaches_pass _ _ _ _ _ _ B (IH H)).
Qed.

Lemma reaches_runs_to self fr self1 fr1 (res : R.t * completion (list string)) :
  reaches self fr self1 fr1 -> runs_to self1 fr1 res -> runs_to self fr res.
Proof.
  induction 1 as [|? ? ? ? ? ? B _ IH]; intros H; [exact H|].
  exact (runs_to_step _ _ _ _ _ B (IH H)).
Qed.

Lemma text_of_length (pieces : list string) :
  String.length (text_of pieces) = list_sum (map String.length pieces).
Proof.
  induction pieces as [|p ps IH]; [reflexivity|].
  cbn [text_of fold_right map list_sum]. fold (text_of ps).
  now rewrite length_append, IH.
Qed.

Lemma text_of_empty (pieces : list string) :
  Forall (fun p => p <> "") pieces -> text_of pieces = "" -> pieces = [].
Proof.
  intros Hne H. destruct pieces as [|p ps]; [reflexivity|].
  inversion Hne; subst. destruct p; [congruence | discriminate].
Qed.

(** The next character of the stream is brought to the head of the buffer,
    by a refill when the buffer is empty; the pass of the loop is the same. *)
Lemma next_char_buffered f d q (b : string) (c : ascii) (rest : string) :
  Forall (fun p => p <> "") f ->
  b ++ text_of f = String c rest ->
  exists f1 b1,
    Forall (fun p => p <> "") f1 /\ b1 ++ text_of f1 = rest /\
    forall e fr,
      R.loop_body (R.mk f d q b e) fr = R.loop_body (R.mk f1 d q (String c b1) e) fr.
Proof.
  intros Hne H. destruct b as [|x b].
  - cbn [append] in H. destruct f as [|p ps]; [discriminate|].
    destruct (TextIO.read (p :: ps) 4096) as [chunk f'] eqn:E.
    destruct (read_nonempty_pieces _ _ _ _ Hne E) as (Hc & Hne' & Ht).
    rewrite H in Ht. destruct chunk as [|y t]; [congruence|].
    cbn [append] in Ht. inversion Ht; subst.
    exists f', t. repeat split; [assumption|].
    intros e fr. apply (loop_body_refill _ _ _ _ _ _ _ E). discriminate.
  - cbn [append] in H. inversion H; subst.
    exists f, b. repeat split; assumption.
Qed.

Lemma first_is_buffered (b t s : string) :
  R.first_is (b ++ t) s = false -> R.first_is b s = false.
Proof. destruct b as [|x b]; [reflexivity | intros H; exact H]. Qed.

Lemma doubled_quote_free (q : ascii) (body : string) :
  contains (String q "") body = false -> Spec.doubled q body = body.
Proof.
  induction body as [|x body IH]; [reflexivity|].
  rewrite contains_char_cons. intros H. apply orb_false_iff in H as [Hx Hb].
  cbn [Spec.doubled]. rewrite Ascii.eqb_sym, Hx, (IH Hb). reflexivity.
Qed.

Section Streamed.

(** A supported configuration, as in [RoundTrip]. *)
Variables d q : ascii.
Hypothesis d_not_q : d <> q.
Hypothesis d_not_terminator : d <> CR /\ d <> LF.
Hypothesis q_not_terminator : q <> CR /\ q <> LF.

Local Notation "'D'" := (String d "").
Local Notation "'Q'" := (String q "").

Lemma stream_plain (plain : string) :
  Spec.requires_quoting d q plain = false ->
  forall f b e row acc tail,
    Forall (fun p => p <> "") f ->
    b ++ text_of f = plain ++ tail ->
    exists f1 b1,
      Forall (fun p => p <> "") f1 /\ b1 ++ text_of f1 = tail /\
      reaches (R.mk f D Q b e) (R.mkLocals row acc false)
              (R.mk f1 D Q b1 e) (R.mkLocals row (acc ++ plain) false).
Proof.
  induction plain as [|x plain IH]; intros Hp f b e row acc tail Hne Ht.
  - exists f, b. rewrite append_nil_r. repeat split; try assumption. constructor.
  - cbn [Spec.requires_quoting] in Hp. apply orb_false_iff in Hp as [Hx Hp].
    unfold Spec.is_special in Hx. rewrite !orb_false_iff, !Ascii.eqb_neq in Hx.
    destruct Hx as (((Xd & Xq) & Xc) & Xl).
    cbn [append] in Ht.
    destruct (next_char_buffered f D Q b x _ Hne Ht) as (f1 & b1 & Hne1 & Ht1 & Hl).
    destruct (IH Hp f1 b1 e row (acc ++ String x "") tail Hne1 Ht1)
      as (f2 & b2 & Hne2 & Ht2 & Hr).
    exists f2, b2. repeat split; try assumption.
    rewrite append_assoc in Hr. cbn [append] in Hr.
    eapply reaches_pass; [|exact Hr].
    rewrite Hl. apply step_plain; try assumption; rewrite char_eqb;
      now apply Ascii.eqb_neq.
Qed.

Lemma stream_quoted_body (body : string) :
  contains Q body = false ->
  forall f b e row acc tail,
    Forall (fun p => p <> "") f ->
    b ++ text_of f = body ++ String q tail ->
    R.first_is tail Q = false ->
    exists f1 b1,
      Forall (fun p => p <> "") f1 /\ b1 ++ text_of f1 = tail /\
      reaches (R.mk f D Q b e) (R.mkLocals row acc true)
              (R.mk f1 D Q b1 e) (R.mkLocals row (acc ++ body) false).
Proof.
  induction body as [|x body IH]; intros Hq f b e row acc tail Hne Ht Hf.
  - cbn [append] in Ht.
    destruct (next_char_buffered f D Q b q _ Hne Ht) as (f1 & b1 & Hne1 & Ht1 & Hl).
    exists f1, b1. rewrite append_nil_r. repeat split; try assumption.
    eapply reaches_pass; [|constructor].
    rewrite Hl. apply step_closing_quote.
    apply (first_is_buffered b1 (text_of f1)). now rewrite Ht1.
  - rewrite contains_char_cons in Hq. apply orb_false_iff in Hq as [Hx Hq].
    cbn [append] in Ht.
    destruct (next_char_buffered f D Q b x _ Hne Ht) as (f1 & b1 & Hne1 & Ht1 & Hl).
    destruct (IH Hq f1 b1 e row (acc ++ String x "") tail Hne1 Ht1 Hf)
      as (f2 & b2 & Hne2 & Ht2 & Hr).
    exists f2, b2. repeat split; try assumption.
    rewrite append_assoc in Hr. cbn [append] in Hr.
    eapply reaches_pass; [|exact Hr].
    rewrite Hl. apply step_in_quotes_literal. rewrite char_eqb, Ascii.eqb_sym.
    exact Hx.
Qed.

Lemma stream_field (field : string) :
  contains Q field = false ->
  forall f b e row tail,
    Forall (fun p => p <> "") f ->
    b ++ text_of f = Spec.emitted_field d q field ++ tail ->
    R.first_is tail Q = false ->
    exists f1 b1,
      Forall (fun p => p <> "") f1 /\ b1 ++ text_of f1 = tail /\
      reaches (R.mk f D Q b e) (R.mkLocals row "" false)
              (R.mk f1 D Q b1 e) (R.mkLocals row field false).
Proof.
  intros Hq f b e row tail Hne Ht Hf. unfold Spec.emitted_field in Ht.
  destruct (Spec.requires_quoting d q field) eqn:E.
  - rewrite (doubled_quote_free _ _ Hq) in Ht.
    cbn [append] in Ht. rewrite append_assoc in Ht. cbn [append] in Ht.
    destruct (next_char_buffered f D Q b q _ Hne Ht) as (f1 & b1 & Hne1 & Ht1 & Hl).
    destruct (stream_quoted_body field Hq f1 b1 e row "" tail Hne1 Ht1 Hf)
      as (f2 & b2 & Hne2 & Ht2 & Hr).
    exists f2, b2. repeat split; try assumption.
    eapply reaches_pass; [|exact Hr]. rewrite Hl. apply step_open_quote.
  - exact (stream_plain field E f b e row "" tail Hne Ht).
Qed.

Lemma stream_row (fields : list string) :
  fields <> [] ->
  Forall (fun field => contains Q field = false) fields ->
  forall f b e row rest,
    Forall (fun p => p <> "") f ->
    b ++ text_of f =
      Spec.joined d (map (Spec.emitted_field d q) fields) ++ String LF rest ->
    exists f1 b1,
      Forall (fun p => p <> "") f1 /\ b1 ++ text_of f1 = rest /\
      runs_to (R.mk f D Q b e) (R.mkLocals row "" false)
              (R.mk f1 D Q b1 e, Return (row ++ fields)%list).
Proof.
  induction fields as [|x fields IH]; intros Hne Hq f b e row rest Hf Ht; [congruence|].
  inversion Hq as [|? ? Hx Hfs]; subst.
  destruct fields as [|y fields].
  - cbn [map Spec.joined] in Ht.
    destruct (stream_field x Hx f b e row (String LF rest) Hf Ht)
      as (f1 & b1 & Hne1 & Ht1 & Hr).
    { unfold R.first_is. cbn [truthy getitem0 andb]. rewrite char_eqb.
      apply Ascii.eqb_neq. intros Z. now apply (proj2 q_not_terminator). }
    destruct (next_char_buffered f1 D Q b1 LF _ Hne1 Ht1) as (f2 & b2 & Hne2 & Ht2 & Hl).
    exists f2, b2. repeat split; try assumption.
    apply (reaches_runs_to _ _ _ _ _ Hr). apply runs_to_end.
    rewrite Hl, step_terminator.
    + reflexivity.
    + rewrite char_eqb. apply Ascii.eqb_neq.
      intros Z. now apply (proj2 q_not_terminator).
    + rewrite char_eqb. apply Ascii.eqb_neq.
      intros Z. now apply (proj2 d_not_terminator).
    + left; reflexivity.
  - change (Spec.joined d (map (Spec.emitted_field d q) (x :: y :: fields)))
      with (Spec.emitted_field d q x ++
            String d (Spec.joined d (map (Spec.emitted_field d q) (y :: fields)))) in Ht.
    rewrite append_assoc in Ht. cbn [append] in Ht.
    destruct (stream_field x Hx f b e row _ Hf Ht) as (f1 & b1 & Hne1 & Ht1 & Hr).
    { unfold R.first_is. cbn [truthy getitem0 andb]. rewrite char_eqb.
      now apply Ascii.eqb_neq. }
    destruct (next_char_buffered f1 D Q b1 d _ Hne1 Ht1) as (f2 & b2 & Hne2 & Ht2 & Hl).
    destruct (IH ltac:(discriminate) Hfs f2 b2 e (row ++ [x])%list rest Hne2 Ht2)
      as (f3 & b3 & Hne3 & Ht3 & Hrun).
    exists f3, b3. repeat split; try assumption.
    apply (reaches_runs_to _ _ _ _ _ Hr).
    eapply runs_to_step.
    + rewrite Hl. apply step_delimiter; rewrite char_eqb.
      * now apply Ascii.eqb_neq.
      * apply Ascii.eqb_refl.
    + rewrite <- app_assoc in Hrun. exact Hrun.
Qed.

Lemma stream_next (row : list string) (rest : string) :
  row <> [] ->
  Forall (fun field => contains Q field = false) row ->
  forall f b,
    Forall (fun p => p <> "") f ->
    b ++ text_of f = Spec.emitted_row d q row ++ rest ->
    exists f1 b1,
      Forall (fun p => p <> "") f1 /\ b1 ++ text_of f1 = rest /\
      R.__next__ (R.mk f D Q b false) = Some (R.mk f1 D Q b1 false, Return row).
Proof.
  intros Hne Hq f b Hf Ht. unfold Spec.emitted_row in Ht.
  rewrite append_assoc in Ht. cbn [append] in Ht.
  destruct (stream_row row Hne Hq f b false [] rest Hf Ht) as (f1 & b1 & Hne1 & Ht1 & Hr).
  exists f1, b1. repeat split; try assumption.
  apply next_of_runs_to; [reflexivity | exact Hr].
Qed.

Lemma stream_collect (rows : list (list string)) :
  Forall (fun row => row <> []) rows ->
  Forall (Forall (fun field => contains Q field = false)) rows ->
  forall f b (fuel : nat) (acc : list (list string)),
    Forall (fun p => p <> "") f ->
    b ++ text_of f = Spec.emitted_rows d q rows ->
    length rows < fuel ->
    exists s, R.collect fuel (R.mk f D Q b false) acc = Some (s, Return (acc ++ rows)%list).
Proof.
  induction rows as [|row rows IH]; intros Hne Hq f b fuel acc Hf Ht Hl;
    (destruct fuel as [|fuel]; [inversion Hl|]).
  - cbn [Spec.emitted_rows fold_right] in Ht.
    destruct b; [|discriminate]. cbn [append] in Ht.
    rewrite (text_of_empty f Hf Ht), app_nil_r. eexists. reflexivity.
  - inversion Hne as [|? ? Hrow Hrows]; subst. inversion Hq as [|? ? Qrow Qrows]; subst.
    cbn [Spec.emitted_rows fold_right] in Ht. fold (Spec.emitted_rows d q rows) in Ht.
    destruct (stream_next row _ Hrow Qrow f b Hf Ht) as (f1 & b1 & Hne1 & Ht1 & Hn).
    cbn [R.collect]. rewrite Hn.
    destruct (IH Hrows Qrows f1 b1 fuel (acc ++ [row])%list Hne1 Ht1) as (s & Hs).
    { cbn [length] in Hl. lia. }
    exists s. rewrite Hs, <- app_assoc. reflexivity.
Qed.

Lemma stream_read (rows : list (list string)) :
  Forall (fun row => row <> []) rows ->
  Forall (Forall (fun field => contains Q field = false)) rows ->
  let text :=
    TextIO.getvalue (W.fileobj (W.writerows (fun s => s) (W.__init__ "" D Q) rows)) in
  (forall pieces : list string,
      Forall (fun p => p <> "") pieces ->
      text_of pieces = text ->
      option_map snd (R.read (R.__init__ pieces D Q)) = Some (Return rows)) /\
  option_map snd (R.read (R.__init__ (TextIO.StringIO text) D Q)) = Some (Return rows).
Proof.
  intros Hne Hq text.
  assert (text = Spec.emitted_rows d q rows) as Et.
  { unfold text. rewrite writerows_emits. reflexivity. }
  assert (forall pieces : list string,
             Forall (fun p => p <> "") pieces ->
             text_of pieces = text ->
             option_map snd (R.read (R.__init__ pieces D Q)) = Some (Return rows)) as Hp.
  { intros pieces Hf Ht. unfold R.read, R.__init__.
    destruct (stream_collect rows Hne Hq pieces ""
                (S (S (R.pending (R.mk pieces D Q "" false)))) [] Hf) as (s & Hs).
    - cbn [append]. congruence.
    - unfold R.pending. cbn [R.buffer R.fileobj String.length Nat.add].
      rewrite <- text_of_length, Ht, Et.
      pose proof (emitted_rows_length d q rows). lia.
    - rewrite Hs. reflexivity. }
  split; [exact Hp|].
  destruct rows as [|row rows].
  - rewrite Et. reflexivity.
  - apply Hp.
    + constructor; [|constructor]. rewrite Et.
      cbn [Spec.emitted_rows fold_right]. unfold Spec.emitted_row.
      destruct (Spec.joined d (map (Spec.emitted_field d q) row)); discriminate.
    + unfold TextIO.StringIO. cbn [text_of fold_right]. apply append_nil_r.
Qed.

(** X3: rows without the quote character in any field come back from
    [read] whatever the length of the text and however the stream cuts it
    into non-empty pieces: without a doubled quote in the text, no lookahead
    of the reader depends on what the buffer holds. *)
Theorem read_after_writerows_without_quotes (rows : list (list string)) :
  Forall (fun row => row <> []) rows ->
  Forall (Forall (fun field => contains Q field = false)) rows ->
  let text :=
    TextIO.getvalue (W.fileobj (W.writerows (fun s => s) (W.__init__ "" D Q) rows)) in
  (forall pieces : list string,
      Forall (fun p => p <> "") pieces ->
      text_of pieces = text ->
      option_map snd (R.read (R.__init__ pieces D Q)) = Some (Return rows)) /\
  option_map snd (R.read (R.__init__ (TextIO.StringIO text) D Q)) = Some (Return rows).
Proof. exact (stream_read rows). Qed.

End Streamed.

(** ** The iterator once the stream is exhausted *)

Lemma next_stop_state (self s : R.t) :
  R.__next__ self = Some (s, Raise StopIteration) ->
  R.buffer s = "" /\ R.eof s = true.
Proof.
  unfold R.__next__.
  destruct (R.eof self && negb (truthy (R.buffer self))) eqn:E; intros H.
  - inversion H; subst. apply andb_true_iff in E as [E1 E2].
    apply negb_true_iff, truthy_false in E2. now split.
  - apply while_true_stop in H as (self' & fr' & _ & Hb).
    apply loop_body_stop in Hb. tauto.
Qed.

Lemma next_return_nonempty (self s : R.t) (r : list string) :
  R.__next__ self = Some (s, Return r) -> r <> [].
Proof.
  unfold R.__next__.
  destruct (R.eof self && negb (truthy (R.buffer self))); [discriminate|].
  apply while_true_returns_nonempty.
Qed.

Lemma collect_result (fuel : nat) :
  forall (self s : R.t) (acc rows : list (list string)),
    R.collect fuel self acc = Some (s, Return rows) ->
    (exists new, rows = (acc ++ new)%list /\ Forall (fun row => row <> []) new) /\
    R.buffer s = "" /\ R.eof s = true.
Proof.
  induction fuel as [|n IH]; intros self s acc rows H; [discriminate|].
  cbn [R.collect] in H.
  destruct (R.__next__ self) as [[s1 [r|[|]]]|] eqn:N; try discriminate.
  - destruct (IH _ _ _ _ H) as ((new & -> & Hnew) & Hs). split; [|exact Hs].
    exists (r :: new). rewrite <- app_assoc. split; [reflexivity|].
    constructor; [exact (next_return_nonempty _ _ _ N) | exact Hnew].
  - inversion H; subst. split; [|exact (next_stop_state _ _ N)].
    exists []. rewrite app_nil_r. split; [reflexivity | constructor].
Qed.

(** X5: once [__next__] has raised StopIteration it raises it on every later
    call and leaves the reader as it is, and [read] then returns the empty
    list. *)
Theorem exhausted_reader_stays_exhausted (self s : R.t) :
  R.__next__ self = Some (s, Raise StopIteration) ->
  R.__next__ s = Some (s, Raise StopIteration) /\
  R.read s = Some (s, Return []).
Proof.
  intros H. apply next_stop_state in H as [Hb He].
  unfold R.read. cbn [R.collect]. unfold R.__next__. rewrite Hb, He.
  split; reflexivity.
Qed.

Lemma exhausted_reader_stays_exhausted_witness :
  R.__next__ (R.mk [] "," dquote "" true) =
    Some (R.mk [] "," dquote "" true, Raise StopIteration) /\
  R.read (R.mk [] "," dquote "" true) = Some (R.mk [] "," dquote "" true, Return []).
Proof.
  apply (exhausted_reader_stays_exhausted (R.new (TextIO.StringIO ""))).
  vm_compute; reflexivity.
Defined.

(** X6: [read] ends on every reader state and returns the list of the rows
    that were left, never an exception; each of these rows has a field, and
    the reader is left exhausted. *)
Theorem read_returns_rows_and_exhausts (self : R.t) :
  exists s rows,
    R.read self = Some (s, Return rows) /\
    Forall (fun row => row <> []) rows /\
    R.__next__ s = Some (s, Raise StopIteration).
Proof.
  destruct (read_total self) as (s & rows & H).
  exists s, rows. split; [exact H|].
  unfold R.read in H.
  apply collect_result in H as ((new & -> & Hnew) & Hb & He).
  split; [exact Hnew|]. unfold R.__next__. now rewrite Hb, He.
Qed.

(** ** The writer: several rows, and different rows *)

Lemma append_inv_head (a b c : string) : a ++ b = a ++ c -> b = c.
Proof.
  induction a as [|x a IH]; cbn [append]; intros H; [exact H|].
  inversion H. now apply IH.
Qed.

Lemma append_inv_tail (a b c : string) : a ++ c = b ++ c -> a = b.
Proof.
  revert b; induction a as [|x a IH]; intros [|y b] H; cbn [append] in H.
  - reflexivity.
  - exfalso. apply (f_equal String.length) in H.
    cbn [String.length] in H. rewrite length_append in H. lia.
  - exfalso. apply (f_equal String.length) in H.
    cbn [String.length] in H. rewrite length_append in H. lia.
  - inversion H. f_equal. now apply IH.
Qed.

(** X7: [writerows] writes the rows in order, each as [writerow] does, after
    what the sink already holds, and keeps the configuration; writing two
    lists of rows one after the other is writing their concatenation. *)
Theorem writerows_writes_each_row
    (A : Type) (str : A -> string) (sink : TextIO.writable) (d q : ascii)
    (rows1 rows2 : list (list A)) :
  W.writerows str (W.__init__ sink (String d "") (String q "")) rows1 =
    W.__init__ (sink ++ Spec.emitted_rows d q (map (map str) rows1))
               (String d "") (String q "") /\
  (forall self : W.t,
      W.writerows str self (rows1 ++ rows2) =
      W.writerows str (W.writerows str self rows1) rows2) /\
  (forall (self : W.t) (row : list A),
      W.writerows str self [row] = W.writerow str self row).
Proof.
  split; [|split].
  - revert sink. induction rows1 as [|row rows IH]; intros sink.
    + cbn. now rewrite append_nil_r.
    + cbn [W.writerows fold_left map Spec.emitted_rows fold_right].
      rewrite writerow_spec.
      fold (W.writerows str
              (W.__init__ (sink ++ Spec.emitted_row d q (map str row))
                 (String d "") (String q "")) rows).
      rewrite IH, append_assoc. reflexivity.
  - intros self. unfold W.writerows. apply fold_left_app.
  - reflexivity.
Qed.

Section Injective.

Variables d q : ascii.
Hypothesis d_not_q : d <> q.
Hypothesis d_not_terminator : d <> CR /\ d <> LF.
Hypothesis q_not_terminator : q <> CR /\ q <> LF.

Local Notation "'D'" := (String d "").
Local Notation "'Q'" := (String q "").

Lemma emitted_row_injective (row1 row2 : list string) :
  row1 <> [] -> row2 <> [] ->
  Spec.emitted_row d q row1 = Spec.emitted_row d q row2 -> row1 = row2.
Proof.
  intros H1 H2 E. unfold Spec.emitted_row in E.
  destruct (scan_row d q d_not_q d_not_terminator q_not_terminator
              [] false row1 H1 [] "") as [n1 R1].
  destruct (scan_row d q d_not_q d_not_terminator q_not_terminator
              [] false row2 H2 [] "") as [n2 R2].
  rewrite E in R1.
  pose proof (while_true_fuel_irrelevant _ _ _ _ _ _ R1 R2) as Eq.
  inversion Eq. reflexivity.
Qed.

(** X4: two different non-empty rows are never written as the same line. *)
Theorem writerow_injective (sink : TextIO.writable) (row1 row2 : list string) :
  row1 <> [] -> row2 <> [] -> row1 <> row2 ->
  W.fileobj (W.writerow (fun s => s) (W.__init__ sink D Q) row1) <>
  W.fileobj (W.writerow (fun s => s) (W.__init__ sink D Q) row2).
Proof.
  intros H1 H2 Hd E. apply Hd.
  rewrite !writerow_spec, !map_id in E. cbn [W.__init__ W.fileobj] in E.
  apply append_inv_head in E. now apply emitted_row_injective.
Qed.

(** X8: two different fields never get the same text from [_escape_field]. *)
Theorem escape_field_injective (sink : TextIO.writable) (field1 field2 : string) :
  field1 <> field2 ->
  W._escape_field (W.__init__ sink D Q) field1 <>
  W._escape_field (W.__init__ sink D Q) field2.
Proof.
  intros Hd Ef. apply Hd. rewrite !escape_field_spec in Ef.
  assert ([field1] = [field2]) as Eq.
  { apply emitted_row_injective; try discriminate.
    unfold Spec.emitted_row. cbn [map Spec.joined]. now rewrite Ef. }
  now inversion Eq.
Qed.

End Injective.

Lemma writerow_injective_witness :
  W.fileobj (W.writerow (fun s => s) (W.new "") ["a,b"]) <>
  W.fileobj (W.writerow (fun s => s) (W.new "") ["a"; "b"]).
Proof.
  apply (writerow_injective ","%char DQ comma_not_dquote comma_not_terminator
           dquote_not_terminator
           "" ["a,b"] ["a"; "b"]); discriminate.
Defined.

Lemma escape_field_injective_witness :
  W._escape_field (W.new "") ("a" ++ dquote) <>
  W._escape_field (W.new "") ("a" ++ dquote ++ dquote).
Proof.
  apply (escape_field_injective ","%char DQ comma_not_dquote comma_not_terminator
           dquote_not_terminator
           "" ("a" ++ dquote) ("a" ++ dquote ++ dquote)); discriminate.
Defined.

(** ** Lines not written by the writer: other terminators, no terminator,
       quotes in the middle of a field *)

Lemma plain_first_is (d q : ascii) (plain tail : string) :
  Spec.requires_quoting d q plain = false ->
  R.first_is tail (String q "") = false ->
  R.first_is (plain ++ tail) (String q "") = false.
Proof.
  destruct plain as [|x plain]; intros Hp Ht; [exact Ht|].
  cbn [Spec.requires_quoting] in Hp. apply orb_false_iff in Hp as [Hx _].
  unfold Spec.is_special in Hx. rewrite !orb_false_iff in Hx.
  destruct Hx as (((_ & Xq) & _) & _).
  unfold R.first_is. cbn [append truthy getitem0 andb]. now rewrite char_eqb.
Qed.

Section Lines.

Variables d q : ascii.
Hypothesis d_not_q : d <> q.
Hypothesis d_not_terminator : d <> CR /\ d <> LF.
Hypothesis q_not_terminator : q <> CR /\ q <> LF.

Local Notation "'D'" := (String d "").
Local Notation "'Q'" := (String q "").

(** The fields of a line up to its terminator: all of them but the last are
    in the row, the last is the field in progress. *)
Lemma scan_fields f e (fields : list string) :
  fields <> [] ->
  forall (row : list string) (tail : string) res,
    R.first_is tail Q = false ->
    runs_to (R.mk f D Q tail e)
            (R.mkLocals (row ++ removelast fields) (last fields "") false) res ->
    runs_to (R.mk f D Q (Spec.joined d (map (Spec.emitted_field d q) fields) ++ tail) e)
            (R.mkLocals row "" false) res.
Proof.
  induction fields as [|x fields IH]; intros Hne row tail res Ht H; [congruence|].
  destruct fields as [|y fields].
  - cbn [map Spec.joined]. cbn [removelast last] in H. rewrite app_nil_r in H.
    apply scan_field; assumption.
  - change (Spec.joined d (map (Spec.emitted_field d q) (x :: y :: fields)))
      with (Spec.emitted_field d q x ++
            String d (Spec.joined d (map (Spec.emitted_field d q) (y :: fields)))).
    rewrite append_assoc. cbn [append]. apply scan_field.
    + unfold R.first_is. cbn [truthy getitem0 andb]. rewrite char_eqb.
      now apply Ascii.eqb_neq.
    + eapply runs_to_step.
      * apply step_delimiter; rewrite char_eqb.
        -- now apply Ascii.eqb_neq.
        -- apply Ascii.eqb_refl.
      * apply (IH ltac:(discriminate) (row ++ [x])%list tail res Ht).
        change (removelast (x :: y :: fields)) with (x :: removelast (y :: fields)) in H.
        change (last (x :: y :: fields) "") with (last (y :: fields) "") in H.
        rewrite <- app_assoc. exact H.
Qed.

Lemma terminator_not_quote (c : ascii) (rest : string) :
  c = LF \/ c = CR -> R.first_is (String c rest) Q = false.
Proof.
  intros Hc. unfold R.first_is. cbn [truthy getitem0 andb]. rewrite char_eqb.
  apply Ascii.eqb_neq. destruct q_not_terminator. destruct Hc; congruence.
Qed.

(** X9: a line is read the same whether it ends with LF, with CR LF or
    with a lone CR: the row is returned and the reader stops right after the
    terminator. *)
Theorem next_accepts_any_terminator (row : list string) (term rest : string) :
  row <> [] ->
  term = nl \/ term = cr ++ nl \/ (term = cr /\ R.first_is rest nl = false) ->
  String.length (Spec.joined d (map (Spec.emitted_field d q) row) ++ term ++ rest)
    <= 4096 ->
  R.__next__
    (R.__init__
       (TextIO.StringIO
          (Spec.joined d (map (Spec.emitted_field d q) row) ++ term ++ rest))
       D Q) =
  Some (R.mk [] D Q rest false, Return row).
Proof.
  intros Hne Hterm Hlen.
  assert (exists c t, term ++ rest = String c t /\ (c = LF \/ c = CR) /\
            (if (String c "" =? cr) && R.first_is t nl then slice1 t else t) = rest)
    as (c & t & Et & Hc & Hb).
  { destruct Hterm as [->|[->|[-> Hr]]].
    - exists LF, rest. repeat split; auto.
    - exists CR, (String LF rest). repeat split; auto.
    - exists CR, rest. repeat split; auto. cbn [String.eqb Ascii.eqb eqb andb].
      change (String CR "" =? cr) with true. cbn [andb]. now rewrite Hr. }
  rewrite Et in *.
  apply next_of_runs_to; [reflexivity|].
  unfold R.__init__, TextIO.StringIO. eapply runs_to_refill.
  - apply read_one_piece. exact Hlen.
  - destruct (Spec.joined d (map (Spec.emitted_field d q) row)); discriminate.
  - apply (scan_fields [] false row Hne []).
    + now apply terminator_not_quote.
    + apply runs_to_end. cbn [app]. rewrite step_terminator.
      * rewrite Hb, <- app_removelast_last by exact Hne. reflexivity.
      * rewrite char_eqb. apply Ascii.eqb_neq.
        destruct q_not_terminator. destruct Hc; congruence.
      * rewrite char_eqb. apply Ascii.eqb_neq.
        destruct d_not_terminator. destruct Hc; congruence.
      * exact Hc.
Qed.


(** X11: a quoted region may open and close in the middle of a field; the
    field is what stands before it, what it quotes (doubled quotes undone)
    and what stands after it, put together. *)
Theorem quoted_region_inside_a_field (before body after rest : string) :
  Spec.requires_quoting d q before = false ->
  Spec.requires_quoting d q after = false ->
  String.length
    (before ++ Q ++ Spec.doubled q body ++ Q ++ after ++ nl ++ rest) <= 4096 ->
  R.__next__
    (R.__init__
       (TextIO.StringIO
          (before ++ Q ++ Spec.doubled q body ++ Q ++ after ++ nl ++ rest))
       D Q) =
  Some (R.mk [] D Q rest false, Return [before ++ body ++ after]).
Proof.
  intros Hb Ha Hlen.
  apply next_of_runs_to; [reflexivity|].
  unfold R.__init__, TextIO.StringIO. eapply runs_to_refill.
  - apply read_one_piece. exact Hlen.
  - destruct before; discriminate.
  - apply (scan_plain d q [] false [] before Hb _ "").
    cbn [append]. eapply runs_to_step; [apply step_open_quote|].
    apply scan_quoted_body.
    + apply (plain_first_is d q after _ Ha). cbn [append].
      apply terminator_not_quote. now left.
    + apply (scan_plain d q [] false [] after Ha).
      apply runs_to_end. change (nl ++ rest) with (String LF rest).
      rewrite step_terminator.
      * rewrite append_assoc. reflexivity.
      * rewrite char_eqb. apply Ascii.eqb_neq.
        intros Z. now apply (proj2 q_not_terminator).
      * rewrite char_eqb. apply Ascii.eqb_neq.
        intros Z. now apply (proj2 d_not_terminator).
      * now left.
Qed.

End Lines.

(** ** What a call leaves unread *)


Lemma fill_unread (self s : R.t) (fr : R.locals) :
  Forall (fun p => p <> "") (R.fileobj self) ->
  R.fill self fr = inl s ->
  unread s = unread self /\ Forall (fun p => p <> "") (R.fileobj s).
Proof.
  intros Hne. unfold R.fill. destruct (truthy (R.buffer self)) eqn:B; cbn [negb].
  - intros H; inversion H; subst. now split.
  - apply truthy_false in B.
    destruct (TextIO.read (R.fileobj self) 4096) as [chunk f] eqn:E.
    destruct (truthy chunk) eqn:C; cbn [negb].
    + intros H; inversion H; subst; clear H.
      unfold unread. cbn [R.set_buffer R.set_fileobj R.buffer R.fileobj]. rewrite B.
      destruct (R.fileobj self) as [|p ps] eqn:F.
      * cbn in E. inversion E; subst. discriminate.
      * destruct (read_nonempty_pieces _ _ _ _ Hne E) as (_ & Hne' & Ht).
        split; [exact Ht | exact Hne'].
    + destruct (if truthy (R.current_field fr) || R.in_quotes fr
                then (R.row fr ++ [R.current_field fr])%list else R.row fr);
        intros H; inversion H.
Qed.

Lemma fill_end_unread (self s : R.t) (fr : R.locals) (c : completion (list string)) :
  Forall (fun p => p <> "") (R.fileobj self) ->
  R.fill self fr = inr (s, c) ->
  unread self = "" /\ unread s = "" /\ R.fileobj s = [].
Proof.
  intros Hne H. apply fill_inr in H as (Hb & Hr & -> & _).
  unfold unread. cbn [R.set_eof R.set_fileobj R.buffer R.fileobj]. rewrite Hb.
  destruct (R.fileobj self) as [|p ps] eqn:F.
  - repeat split.
  - exfalso. destruct (TextIO.read (p :: ps) 4096) as [chunk f'] eqn:E.
    destruct (read_nonempty_pieces _ _ _ _ Hne E) as (Hc & _). now apply Hc.
Qed.

Lemma loop_body_consumes (self : R.t) (fr : R.locals) :
  Forall (fun p => p <> "") (R.fileobj self) ->
  forall s : R.t,
    (exists fr', R.loop_body self fr = inl (s, fr')) \/
    (exists c, R.loop_body self fr = inr (s, c)) ->
    (exists consumed, unread self = consumed ++ unread s) /\
    Forall (fun p => p <> "") (R.fileobj s) /\
    R.delimiter s = R.delimiter self /\ R.quotechar s = R.quotechar self.
Proof.
  intros Hne s H. unfold R.loop_body in H.
  destruct (R.fill self fr) as [s0|[s0 c0]] eqn:F.
  - pose proof (fill_inl _ _ _ F) as (Hb & _ & Hd & Hq & _).
    destruct (fill_unread _ _ _ Hne F) as (Hu & Hne0).
    rewrite <- Hu, <- Hd, <- Hq. clear F Hu Hd Hq Hne.
    destruct s0 as [f d q b e]; cbn [R.buffer R.fileobj R.delimiter R.quotechar] in *.
    destruct b as [|x b]; [congruence|].
    cbn [getitem0 slice1 R.set_buffer R.buffer R.fileobj R.delimiter R.quotechar R.eof] in H.
    assert (forall b' : string,
               (b' = b \/ b' = slice1 b) ->
               exists consumed,
                 unread (R.mk f d q (String x b) e) = consumed ++ unread (R.mk f d q b' e))
      as Hcons.
    { intros b' [->| ->]; unfold unread; cbn [R.buffer R.fileobj].
      - exists (String x ""). reflexivity.
      - destruct b as [|y b]; cbn [slice1].
        + exists (String x ""). reflexivity.
        + exists (String x (String y "")). reflexivity. }
    repeat match type of H with
    | context [if ?c then _ else _] => destruct c
    end;
    destruct H as [[fr' H]|[c H]]; inversion H; subst;
    cbn [R.fileobj R.delimiter R.quotechar];
    (split; [apply Hcons; auto | repeat split; assumption]).
  - destruct H as [[fr' H]|[c H]]; [discriminate|]. inversion H; subst.
    pose proof (fill_inr _ _ _ _ F) as (_ & _ & Es & _).
    destruct (fill_end_unread _ _ _ _ Hne F) as (U1 & U2 & Ef).
    split; [exists ""; now rewrite U1, U2|].
    rewrite Ef. split; [constructor|]. rewrite Es. now split.
Qed.

Lemma while_true_consumes (fuel : nat) :
  forall (self s : R.t) (fr : R.locals) (c : completion (list string)),
    Forall (fun p => p <> "") (R.fileobj self) ->
    R.while_true fuel self fr = Some (s, c) ->
    (exists consumed, unread self = consumed ++ unread s) /\
    Forall (fun p => p <> "") (R.fileobj s) /\
    R.delimiter s = R.delimiter self /\ R.quotechar s = R.quotechar self.
Proof.
  induction fuel as [|n IH]; intros self s fr c Hne H; [discriminate|].
  cbn [R.while_true] in H.
  destruct (R.loop_body self fr) as [[s1 fr1]|ended] eqn:B.
  - destruct (loop_body_consumes self fr Hne s1) as ((c1 & U1) & Hne1 & Hd1 & Hq1).
    { left. now exists fr1. }
    destruct (IH _ _ _ _ Hne1 H) as ((c2 & U2) & Hne2 & Hd2 & Hq2).
    split; [|repeat split; congruence].
    exists (c1 ++ c2). rewrite U1, U2, append_assoc. reflexivity.
  - inversion H; subst. apply (loop_body_consumes self fr Hne s).
    right. now exists c.
Qed.

(** X12: a call of [__next__] consumes a prefix of the unread text and nothing
    else: what the reader has left after the call, in its buffer and in the
    stream, is the rest of what it had before, and the delimiter and the
    quote character are the same. *)
Theorem next_consumes_a_prefix (self s : R.t) (c : completion (list string)) :
  Forall (fun p => p <> "") (R.fileobj self) ->
  R.__next__ self = Some (s, c) ->
  (exists consumed, unread self = consumed ++ unread s) /\
  Forall (fun p => p <> "") (R.fileobj s) /\
  R.delimiter s = R.delimiter self /\ R.quotechar s = R.quotechar self.
Proof.
  intros Hne H. unfold R.__next__ in H.
  destruct (R.eof self && negb (truthy (R.buffer self))).
  - inversion H; subst. split; [now exists ""|]. repeat split. exact Hne.
  - exact (while_true_consumes _ _ _ _ _ Hne H).
Qed.

Lemma next_consumes_a_prefix_witness :
  exists consumed,
    unread (R.new ["a,b" ++ nl ++ "c"]) =
    consumed ++ unread (R.mk [] "," dquote "c" false).
Proof.
  apply (next_consumes_a_prefix (R.new ["a,b" ++ nl ++ "c"])
           (R.mk [] "," dquote "c" false) (Return ["a"; "b"])).
  - repeat constructor; discriminate.
  - vm_compute; reflexivity.
Defined.

(** ** The benchmark's data *)

Lemma join_empty_separator (l : list string) : join "" l = text_of l.
Proof.
  induction l as [|x l IH]; [reflexivity|].
  destruct l as [|y l].
  - cbn. now rewrite append_nil_r.
  - change (join "" (x :: y :: l)) with (x ++ "" ++ join "" (y :: l)).
    rewrite IH. reflexivity.
Qed.

Lemma letters_without_quote (a : ascii) :
  In a (list_ascii_of_string Benchmark.ascii_letters) -> Ascii.eqb DQ a = false.
Proof.
  intros H. apply Ascii.eqb_neq. intros <-.
  revert H. vm_compute. intuition discriminate.
Qed.

Section BenchmarkData.

Context {rng : Type}.
Context (choice : list string -> rng -> string * rng).
Context (choices : string -> nat -> rng -> list string * rng).

(** [random.choices] returns elements of its population: here, characters of
    the string it is given. *)
Hypothesis choices_from_population : forall (population : string) (k : nat) (g : rng),
  Forall (fun c => exists a, c = String a "" /\ In a (list_ascii_of_string population))
         (fst (choices population k g)).

Lemma drawn_letters_without_quote (k : nat) (g : rng) :
  contains dquote (join "" (fst (choices Benchmark.ascii_letters k g))) = false.
Proof.
  rewrite join_empty_separator.
  pose proof (choices_from_population Benchmark.ascii_letters k g) as H.
  induction H as [|c l (a & -> & Ha) _ IH]; [reflexivity|].
  cbn [text_of fold_right append]. unfold dquote. rewrite contains_char_cons.
  rewrite (letters_without_quote a Ha). exact IH.
Qed.

Lemma generate_field_without_quote (g : rng) :
  contains dquote (fst (Benchmark.generate_field choice choices g)) = false.
Proof.
  unfold Benchmark.generate_field.
  destruct (choice ["simple"; "quoted"; "multiline"] g) as [field_type g1].
  destruct (field_type =? "simple").
  - pose proof (drawn_letters_without_quote 10 g1) as H.
    destruct (choices Benchmark.ascii_letters 10 g1). exact H.
  - destruct (field_type =? "quoted").
    + pose proof (drawn_letters_without_quote 10 g1) as H.
      destruct (choices Benchmark.ascii_letters 10 g1) as [letters g2].
      cbn [fst] in *. unfold dquote in *. rewrite contains_char_app, H. reflexivity.
    + reflexivity.
Qed.

Lemma generate_row_shape (cols : nat) :
  forall (row : list string) (g : rng),
    Forall (fun field => contains dquote field = false) row ->
    Forall (fun field => contains dquote field = false)
           (fst (Benchmark.generate_row choice choices cols row g)) /\
    length (fst (Benchmark.generate_row choice choices cols row g)) = length row + cols.
Proof.
  induction cols as [|k IH]; intros row g Hq.
  - cbn. split; [exact Hq | lia].
  - cbn [Benchmark.generate_row].
    pose proof (generate_field_without_quote g) as Hf.
    destruct (Benchmark.generate_field choice choices g) as [field g1]. cbn [fst] in Hf.
    destruct (IH (row ++ [field])%list g1) as [H1 H2].
    + apply Forall_app. split; [exact Hq | repeat constructor; exact Hf].
    + split; [exact H1|]. rewrite H2, length_app. cbn [length]. lia.
Qed.

Lemma generate_rows_shape (cols rows : nat) :
  forall (data : list (list string)) (g : rng),
    Forall (fun row => Forall (fun field => contains dquote field = false) row /\
                       length row = cols) data ->
    Forall (fun row => Forall (fun field => contains dquote field = false) row /\
                       length row = cols)
           (fst (Benchmark.generate_rows choice choices rows cols data g)) /\
    length (fst (Benchmark.generate_rows choice choices rows cols data g)) =
      length data + rows.
Proof.
  induction rows as [|k IH]; intros data g Hd.
  - cbn. split; [exact Hd | lia].
  - cbn [Benchmark.generate_rows].
    destruct (generate_row_shape cols [] g (Forall_nil _)) as [R1 R2].
    destruct (Benchmark.generate_row choice choices cols [] g) as [row g1].
    cbn [fst length Nat.add] in R1, R2.
    destruct (IH (data ++ [row])%list g1) as [H1 H2].
    + apply Forall_app. split; [exact Hd | repeat constructor; assumption].
    + split; [exact H1|]. rewrite H2, length_app. cbn [length]. lia.
Qed.

(** X13: whatever the random draws, [generate_test_data] returns [rows] rows
    of [cols] fields without a quote character, so for at least one column
    the data written by the writer are read back by the reader as they were,
    whatever their size. *)
Theorem benchmark_data_reads_back (rows cols : nat) (g : rng) :
  0 < cols ->
  let data := fst (Benchmark.generate_test_data choice choices rows cols g) in
  length data = rows /\
  Forall (fun row => length row = cols) data /\
  Benchmark.written_then_read data = Some (Return data).
Proof.
  intros Hc data.
  destruct (generate_rows_shape cols rows [] g (Forall_nil _)) as [H1 H2].
  fold (Benchmark.generate_test_data choice choices rows cols g) in H1, H2.
  fold data in H1, H2. cbn [length Nat.add] in H2.
  split; [exact H2|]. split.
  - apply Forall_forall. intros row Hr.
    rewrite Forall_forall in H1. exact (proj2 (H1 row Hr)).
  - unfold Benchmark.written_then_read, W.new, R.new.
    apply (stream_read ","%char DQ comma_not_dquote
             comma_not_terminator dquote_not_terminator).
    + apply Forall_forall. intros row Hr. rewrite Forall_forall in H1.
      destruct (H1 row Hr) as [_ Hl]. intros ->. cbn in Hl. lia.
    + apply Forall_forall. intros row Hr. rewrite Forall_forall in H1.
      exact (proj1 (H1 row Hr)).
Qed.

End BenchmarkData.

Lemma counting_choices_from_population (population : string) (k g : nat) :
  Forall (fun c => exists a, c = String a "" /\ In a (list_ascii_of_string population))
         (fst (Benchmark.counting_choices population k g)).
Proof.
  destruct population as [|a population]; cbn [Benchmark.counting_choices fst].
  - constructor.
  - apply Forall_forall. intros c Hc. apply repeat_spec in Hc. subst c.
    exists a. split; [reflexivity | now left].
Qed.

Lemma benchmark_data_reads_back_witness :
  Benchmark.written_then_read
    (fst (Benchmark.generate_test_data
            Benchmark.counting_choice Benchmark.counting_choices 3 2 0)) =
  Some (Return
          (fst (Benchmark.generate_test_data
                  Benchmark.counting_choice Benchmark.counting_choices 3 2 0))).
Proof.
  apply (benchmark_data_reads_back
           Benchmark.counting_choice Benchmark.counting_choices
           counting_choices_from_population 3 2 0).
  lia.
Defined.

(** ** Reading, writing and reading again *)

(** X14: the rows [read] returns from any reader, written with [writerows]
    into a text of at most one chunk, are the rows a new reader returns:
    reading, writing and reading again changes nothing. *)
Theorem reading_again_gives_the_same_rows
    (d q : ascii) (self s : R.t) (rows : list (list string)) :
  d <> q -> d <> CR /\ d <> LF -> q <> CR /\ q <> LF ->
  R.read self = Some (s, Return rows) ->
  String.length (Spec.emitted_rows d q rows) <= 4096 ->
  option_map snd
    (R.read
       (R.__init__
          (TextIO.StringIO
             (TextIO.getvalue
                (W.fileobj
                   (W.writerows (fun s => s)
                      (W.__init__ "" (String d "") (String q "")) rows))))
          (String d "") (String q ""))) =
  Some (Return rows).
Proof.
  intros Hdq Hd Hq H Hlen. apply read_one_chunk; try assumption.
  unfold R.read in H. apply collect_result in H as ((new & -> & Hnew) & _).
  exact Hnew.
Qed.

Lemma reading_again_gives_the_same_rows_witness :
  option_map snd
    (R.read
       (R.new (TextIO.StringIO
                 (TextIO.getvalue
                    (W.fileobj
                       (W.writerows (fun s => s) (W.new "")
                          [["a"; "b"]; [""]; ["c,d"]])))))) =
  Some (Return [["a"; "b"]; [""]; ["c,d"]]).
Proof.
  apply (reading_again_gives_the_same_rows ","%char DQ
           (R.new (TextIO.StringIO ("a,b" ++ cr ++ nl ++ cr ++ dquote ++ "c,d" ++ dquote)))
           (R.mk [] "," dquote "" true) [["a"; "b"]; [""]; ["c,d"]]
           comma_not_dquote comma_not_terminator dquote_not_terminator).
  - vm_compute; reflexivity.
  - vm_compute. lia.
Defined.

(** ** The properties above at concrete rows *)

Lemma next_after_writerow_witness :
  R.__next__
    (R.new (TextIO.StringIO
              (TextIO.getvalue
                 (W.fileobj
                    (W.writerow (fun s => s) (W.new "")
                       ["he said " ++ dquote ++ "hi" ++ dquote; "a,b"; "";
                        "line1" ++ nl ++ "line2"])) ++ "next,line"))) =
  Some (R.mk [] "," dquote "next,line" false,
        Return ["he said " ++ dquote ++ "hi" ++ dquote; "a,b"; "";
                "line1" ++ nl ++ "line2"]).
Proof.
  apply (next_after_writerow ","%char DQ comma_not_dquote comma_not_terminator
           dquote_not_terminator
           ["he said " ++ dquote ++ "hi" ++ dquote; "a,b"; "";
            "line1" ++ nl ++ "line2"] "next,line").
  - discriminate.
  - vm_compute. lia.
Defined.

Lemma read_after_writerows_witness :
  option_map snd
    (R.read
       (R.new (TextIO.StringIO
                 (TextIO.getvalue
                    (W.fileobj
                       (W.writerows (fun s => s) (W.new "")
                          [["a"; "b,c"]; [""]; [dquote; "x" ++ cr ++ nl ++ "y"]])))))) =
  Some (Return [["a"; "b,c"]; [""]; [dquote; "x" ++ cr ++ nl ++ "y"]]).
Proof.
  apply (read_after_writerows ","%char DQ comma_not_dquote comma_not_terminator
           dquote_not_terminator
           [["a"; "b,c"]; [""]; [dquote; "x" ++ cr ++ nl ++ "y"]]).
  - repeat constructor; discriminate.
  - vm_compute. lia.
Defined.

Lemma read_after_writerows_without_quotes_witness :
  option_map snd
    (R.read (R.new [dquote ++ "a,"; "b" ++ dquote ++ ",c" ++ nl ++ "x"; nl])) =
  Some (Return [["a,b"; "c"]; ["x"]]).
Proof.
  apply (proj1 (read_after_writerows_without_quotes ","%char DQ comma_not_dquote comma_not_terminator
           dquote_not_terminator
                  [["a,b"; "c"]; ["x"]]
                  ltac:(repeat constructor; discriminate)
                  ltac:(repeat constructor))).
  - repeat constructor; discriminate.
  - vm_compute; reflexivity.
Defined.

Lemma next_accepts_any_terminator_witness :
  R.__next__ (R.new (TextIO.StringIO ("a,b" ++ cr ++ nl ++ "c"))) =
  Some (R.mk [] "," dquote "c" false, Return ["a"; "b"]).
Proof.
  apply (next_accepts_any_terminator ","%char DQ comma_not_dquote comma_not_terminator
           dquote_not_terminator
           ["a"; "b"] (cr ++ nl) "c").
  - discriminate.
  - right; left; reflexivity.
  - vm_compute. lia.
Defined.


Lemma quoted_region_inside_a_field_witness :
  R.__next__
    (R.new (TextIO.StringIO ("ab" ++ dquote ++ "c,d" ++ dquote ++ "ef" ++ nl ++ "g"))) =
  Some (R.mk [] "," dquote "g" false, Return ["abc,def"]).
Proof.
  apply (quoted_region_inside_a_field ","%char DQ comma_not_terminator
           dquote_not_terminator "ab" "c,d" "ef" "g").
  - reflexivity.
  - reflexivity.
  - vm_compute. lia.
Defined.

(** ** A last line without a line terminator *)



Section LastLine.

Variables d q : ascii.
Hypothesis d_not_q : d <> q.
Hypothesis d_not_terminator : d <> CR /\ d <> LF.
Hypothesis q_not_terminator : q <> CR /\ q <> LF.

Local Notation "'D'" := (String d "").
Local Notation "'Q'" := (String q "").









End LastLine.


